(** * Verification of [run_yolo_model2.py]

    A shallow embedding of the batch driver [run_yolo_inference] and of the
    per-image export it performs (ledger rows, label file, crops, annotated
    image), followed by the properties of the specification.

    The external collaborators of the script are parameters of the model:
    floating-point arithmetic and formatting ([FloatOps]), the detector
    ([Model]), image decoding and encoding and the faults of the file
    operations ([Env]). *)

From Stdlib Require Import ZArith Ascii String List Lia SpecFloat.
From stdpp Require Import base tactics option list sorting strings pretty gmap.

Local Open Scope string_scope.
Local Open Scope list_scope.
Local Open Scope Z_scope.

(** ** Python values that the script handles *)

(** Python [float]s.  The script only adds, subtracts and divides them,
    converts integers to them, truncates them and formats them. *)
Class FloatOps := {
  float : Type;
  fadd : float → float → float;
  fsub : float → float → float;
  fdiv : float → float → float;
  float_of_int : Z → float;          (* the implicit int -> float conversion *)
  int_of_float : float → option Z;   (* [int(x)]: [None] when it raises *)
  tensor_int : float → Z;            (* [tensor.int()]: truncation, total *)
  format_f : nat → float → string;   (* [f"{x:.Nf}"] *)
}.

(** ** Paths ([pathlib.Path]) as their sequence of parts *)

Abbreviation Path := (list string).

Definition path_div (p : Path) (s : string) : Path := p ++ [s].
Infix "//" := path_div (at level 40, left associativity).

Definition path_name (p : Path) : string := List.last p "".
Definition path_parent (p : Path) : Path := List.removelast p.
Definition path_str (p : Path) : string := String.concat "/" p.

(** [s.rfind(".")]: position of the last dot, [None] for -1. *)
Fixpoint rfind_dot (s : string) : option nat :=
  match s with
  | EmptyString => None
  | String c s' =>
      match rfind_dot s' with
      | Some i => Some (S i)
      | None => if Ascii.eqb c "." then Some 0%nat else None
      end
  end.

(** [PurePath.suffix] and [PurePath.stem] of a final component: the suffix
    starts at the last dot unless that dot is the first or the last
    character of the name. *)
Definition split_suffix (name : string) : string * string :=
  match rfind_dot name with
  | Some i =>
      if bool_decide (0 < i < String.length name - 1)%nat
      then (String.substring 0 i name,
            String.substring i (String.length name - i) name)
      else (name, "")
  | None => (name, "")
  end.

Definition path_suffix (p : Path) : string := snd (split_suffix (path_name p)).
Definition path_stem (p : Path) : string := fst (split_suffix (path_name p)).

(** [str.lower()] on the ASCII letters. *)
Definition lower_ascii (c : ascii) : ascii :=
  let n := nat_of_ascii c in
  if bool_decide (65 ≤ n ≤ 90)%nat then ascii_of_nat (n + 32) else c.

Fixpoint lower (s : string) : string :=
  match s with
  | EmptyString => EmptyString
  | String c s' => String (lower_ascii c) (lower s')
  end.

(** [f"{i:03d}"] for a non-negative [i]: decimal digits, padded on the left
    with zeros to a width of at least three. *)
Definition zfill (width : nat) (s : string) : string :=
  Nat.iter (width - String.length s) (String "0") s.

Definition format_03d (i : nat) : string := zfill 3 (pretty i).

(** ** Data model *)

Section Script.
Context `{FO : FloatOps}.

(** One element of [result.boxes]. *)
Record Box := {
  box_cls : float;
  box_conf : float;
  box_xyxy : float * float * float * float;
}.

(** A decoded pixel grid; only its dimensions matter to the script
    ([img.shape[:2]]).  [cv2.imread] returns [None] rather than an empty
    grid, so both dimensions are positive. *)
Record Image := {
  img_height : positive;
  img_width : positive;
}.

(** Cells and rows handed to [csv.writer.writerow]. *)
Inductive Cell :=
  | CStr (s : string)
  | CFloat (x : float).

Abbreviation Row := (list Cell).

(** What a file of the output tree holds. *)
Inductive Content :=
  | Text (lines : list string)
  | Crop (src : Image) (y1 y2 x1 x2 : Z)
  | Annotated (src : Image) (marks : list (Z * Z * Z * Z * string)).

(** Exceptions, all of them subclasses of [Exception]. *)
Inductive exn :=
  | DetectorError (msg : string)
  | AttributeError
  | ValueError
  | KeyError (k : Z)
  | OSError (msg : string)
  | CvError (msg : string).

(** File operations whose failure is decided by the environment. *)
Inductive IOop :=
  | OpMkdir (p : Path)
  | OpOpenW (p : Path)
  | OpWriterow (p : Path) (r : Row)
  | OpWrite (p : Path) (line : string)
  | OpTouch (p : Path).

(** The detector returned by [YOLO(weights_path)]. *)
Record Model := {
  predict : Path → float → string → exn + option (list Box);
  names : gmap Z string;
}.

Record DirEntry := {
  entry_name : string;
  entry_is_file : bool;
}.

(** The world outside the script. *)
Record Env := {
  YOLO : string → exn + Model;
  iterdir : Path → exn + list DirEntry;
  imread : Path → option Image;
  imwrite : Path → Content → exn + bool;
  io_error : IOop → option exn;
}.

Inductive Msg :=
  | MsgLoading (w : string)
  | MsgNoImages (d : Path)
  | MsgFound (n : nat)
  | MsgProcessing (name : string)
  | MsgError (name : string) (e : exn)
  | MsgCompleted (processed total detections : nat) (csv out : Path).

(** The mutable state: the content of [detections.csv], the other files of
    the output tree, standard output and the two counters of the driver. *)
Record State := {
  ledger : list Row;
  files : gmap Path Content;
  stdout : list Msg;
  total_detections : nat;
  processed_images : nat;
}.

Inductive PyVal :=
  | PyInt (n : Z)
  | PyStr (s : string).

(** ** Effects: state and exceptions

    A computation transforms the state and either returns a value or raises
    an exception; the state reached when the exception was raised is kept. *)

Definition M (A : Type) : Type := State → State * (exn + A).

#[export] Instance M_ret : MRet M := λ A a st, (st, inr a).

#[export] Instance M_bind : MBind M := λ A B k m st,
  match m st with
  | (st', inr a) => k a st'
  | (st', inl e) => (st', inl e)
  end.

Definition raise {A} (e : exn) : M A := λ st, (st, inl e).

Definition modify (f : State → State) : M unit := λ st, (f st, inr tt).

Definition gets {A} (f : State → A) : M A := λ st, (st, inr (f st)).

(** [try: body / except Exception as e: handler e]. *)
Definition try_except (body : M unit) (handler : exn → M unit) : M unit :=
  λ st,
  match body st with
  | (st', inr tt) => (st', inr tt)
  | (st', inl e) => handler e st'
  end.

Definition lift_result {A} (r : exn + A) : M A :=
  match r with
  | inl e => raise e
  | inr a => mret a
  end.

Definition when (b : bool) (m : M unit) : M unit :=
  if b then m else mret tt.

(** [for x in l: f x]. *)
Fixpoint for_each {A} (l : list A) (f : A → M unit) : M unit :=
  match l with
  | [] => mret tt
  | x :: l' => f x ;; for_each l' f
  end.

(** [enumerate(l, start)]. *)
Fixpoint enumerate {A} (start : nat) (l : list A) : list (nat * A) :=
  match l with
  | [] => []
  | x :: l' => (start, x) :: enumerate (S start) l'
  end.

(** *** State updates *)

Definition set_ledger (f : list Row → list Row) (st : State) : State :=
  {| ledger := f (ledger st); files := files st; stdout := stdout st;
     total_detections := total_detections st;
     processed_images := processed_images st |}.

Definition set_files (f : gmap Path Content → gmap Path Content)
    (st : State) : State :=
  {| ledger := ledger st; files := f (files st); stdout := stdout st;
     total_detections := total_detections st;
     processed_images := processed_images st |}.

Definition set_stdout (f : list Msg → list Msg) (st : State) : State :=
  {| ledger := ledger st; files := files st; stdout := f (stdout st);
     total_detections := total_detections st;
     processed_images := processed_images st |}.

Definition set_total_detections (f : nat → nat) (st : State) : State :=
  {| ledger := ledger st; files := files st; stdout := stdout st;
     total_detections := f (total_detections st);
     processed_images := processed_images st |}.

Definition set_processed_images (f : nat → nat) (st : State) : State :=
  {| ledger := ledger st; files := files st; stdout := stdout st;
     total_detections := total_detections st;
     processed_images := f (processed_images st) |}.

(** *** Primitive operations *)

Variable env : Env.

Definition print (m : Msg) : M unit := modify (set_stdout (λ out, out ++ [m])).

(** A file operation: raises when the environment says so, otherwise
    performs its update. *)
Definition io (op : IOop) (f : State → State) : M unit :=
  match io_error env op with
  | Some e => raise e
  | None => modify f
  end.

(** [Path.mkdir(exist_ok=True)]; directories are not tracked. *)
Definition mkdir (p : Path) : M unit := io (OpMkdir p) id.

(** [open(p, "w")] of the ledger: truncates. *)
Definition open_csv (p : Path) : M unit :=
  io (OpOpenW p) (set_ledger (λ _, [])).

(** [writer.writerow(r)] on the ledger opened at [p]. *)
Definition writerow (p : Path) (r : Row) : M unit :=
  io (OpWriterow p r) (set_ledger (λ rows, rows ++ [r])).

(** [open(p, "w")] of a text file: creates or truncates. *)
Definition open_w (p : Path) : M unit :=
  io (OpOpenW p) (set_files (insert p (Text []))).

(** [f.write(line)] on the text file opened at [p]. *)
Definition write_line (p : Path) (line : string) : M unit :=
  io (OpWrite p line)
     (set_files (λ fs,
        match fs !! p with
        | Some (Text ls) => <[p := Text (ls ++ [line])]> fs
        | _ => <[p := Text [line]]> fs
        end)).

(** [Path.touch()]: creates an empty file, leaves an existing one as it is. *)
Definition touch (p : Path) : M unit :=
  io (OpTouch p)
     (set_files (λ fs,
        match fs !! p with
        | Some _ => fs
        | None => <[p := Text []]> fs
        end)).

(** [cv2.imwrite(str(p), c)]: may raise; otherwise reports through its
    boolean result, which the script ignores, whether the file was written. *)
Definition cv2_imwrite (p : Path) (c : Content) : M unit :=
  written ← lift_result (imwrite env p c);
  if written : bool then modify (set_files (insert p c)) else mret tt.

(** ** The per-image export (lines 65 to 129 of the script) *)

Definition image_extensions : list string :=
  [".jpg"; ".jpeg"; ".png"; ".bmp"; ".tiff"; ".tif"].

Definition csv_header : Row :=
  [CStr "dossier"; CStr "image"; CStr "detection_number"; CStr "score"].

(** The row of the detection that [enumerate(boxes, start=1)] numbers [i]. *)
Definition detection_row (img_path : Path) (i : nat) (box : Box) : Row :=
  [CStr (path_name (path_parent img_path)); CStr (path_name img_path);
   CStr ("detection" +:+ pretty i); CFloat (box_conf box)].

Definition no_detection_row (img_path : Path) : Row :=
  [CStr (path_name (path_parent img_path)); CStr (path_name img_path);
   CStr "no-detection"; CStr ""].

Definition write_detection_rows (csv_path img_path : Path)
    (boxes : list Box) : M unit :=
  for_each (enumerate 1 boxes)
    (λ ib, writerow csv_path (detection_row img_path ib.1 ib.2)).

(** [int(box.cls.item())]. *)
Definition class_id (box : Box) : exn + Z :=
  match int_of_float (box_cls box) with
  | Some c => inr c
  | None => inl ValueError
  end.

(** The four normalized values of a label line. *)
Definition yolo_box (img : Image) (box : Box) : float * float * float * float :=
  let '(x1, y1, x2, y2) := box_xyxy box in
  let img_width := float_of_int (Z.pos (img_width img)) in
  let img_height := float_of_int (Z.pos (img_height img)) in
  let center_x := fdiv (fdiv (fadd x1 x2) (float_of_int 2)) img_width in
  let center_y := fdiv (fdiv (fadd y1 y2) (float_of_int 2)) img_height in
  let width := fdiv (fsub x2 x1) img_width in
  let height := fdiv (fsub y2 y1) img_height in
  (center_x, center_y, width, height).

(** One line of a label file, without its final newline. *)
Definition format_label (cls : Z) (v : float * float * float * float) : string :=
  let '(center_x, center_y, width, height) := v in
  pretty cls +:+ " " +:+ format_f 6 center_x +:+ " " +:+ format_f 6 center_y
  +:+ " " +:+ format_f 6 width +:+ " " +:+ format_f 6 height.

Definition label_line (img : Image) (box : Box) : exn + string :=
  match class_id box with
  | inl e => inl e
  | inr cls => inr (format_label cls (yolo_box img box))
  end.

Definition label_path (labels_dir img_path : Path) : Path :=
  labels_dir // (path_stem img_path +:+ ".txt").

Definition write_label_file (labels_dir img_path : Path) (img : Image)
    (boxes : list Box) : M unit :=
  let label_file := label_path labels_dir img_path in
  open_w label_file;;
  for_each boxes (λ box,
    line ← lift_result (label_line img box);
    write_line label_file line).

(** [box.xyxy[0].int().tolist()]. *)
Definition int_box (box : Box) : Z * Z * Z * Z :=
  let '(x1, y1, x2, y2) := box_xyxy box in
  (tensor_int x1, tensor_int y1, tensor_int x2, tensor_int y2).

(** [img[y1:y2, x1:x2]]. *)
Definition crop_of (img : Image) (box : Box) : Content :=
  let '(x1, y1, x2, y2) := int_box box in
  Crop img y1 y2 x1 x2.

Definition crop_filename (img_path : Path) (i : nat) : string :=
  path_stem img_path +:+ "_crop_" +:+ format_03d i +:+ ".jpg".

Definition save_crop_files (crops_dir img_path : Path) (img : Image)
    (boxes : list Box) : M unit :=
  for_each (enumerate 0 boxes) (λ ib,
    cv2_imwrite (crops_dir // crop_filename img_path ib.1) (crop_of img ib.2)).

(** The rectangle and the text drawn for one detection. *)
Definition annotation (model : Model) (box : Box)
    : exn + (Z * Z * Z * Z * string) :=
  let '(x1, y1, x2, y2) := int_box box in
  match class_id box with
  | inl e => inl e
  | inr cls =>
      let class_name :=
        if bool_decide (names model = ∅) then inr (pretty cls)
        else match names model !! cls with
             | Some n => inr n
             | None => inl (KeyError cls)
             end in
      match class_name with
      | inl e => inl e
      | inr class_name =>
          inr (x1, y1, x2, y2,
               class_name +:+ ": " +:+ format_f 2 (box_conf box))
      end
  end.

Fixpoint annotations (model : Model) (boxes : list Box)
    : exn + list (Z * Z * Z * Z * string) :=
  match boxes with
  | [] => inr []
  | box :: boxes' =>
      match annotation model box with
      | inl e => inl e
      | inr a =>
          match annotations model boxes' with
          | inl e => inl e
          | inr l => inr (a :: l)
          end
      end
  end.

Definition annotated_path (annotated_dir img_path : Path) : Path :=
  annotated_dir // (path_stem img_path +:+ "_annotated" +:+ path_suffix img_path).

Definition save_annotated_image (model : Model) (annotated_dir img_path : Path)
    (img : Image) (boxes : list Box) : M unit :=
  marks ← lift_result (annotations model boxes);
  cv2_imwrite (annotated_path annotated_dir img_path) (Annotated img marks).

(** The arguments of [run_yolo_inference]. *)
Record Args := {
  weights_path : string;
  images_folder : Path;
  output_folder : option Path;
  save_crops : bool;
  save_labels : bool;
  save_annotated : bool;
  conf_threshold : float;
  device : string;
}.

(** The export of one image (lines 73 to 127): the ledger rows, then the
    artifacts that the flags enable.  [out] is the output folder once its
    default has been resolved. *)
Definition export_detections (args : Args) (model : Model) (out : Path)
    (img_path : Path) (img : Image) (boxes : option (list Box)) : M unit :=
  let csv_path := out // "detections.csv" in
  let crops_dir := out // "crops" in
  let labels_dir := out // "labels" in
  let annotated_dir := out // "annotated" in
  match boxes with
  | Some ((_ :: _) as boxes) =>
      modify (set_total_detections (λ n, (n + length boxes)%nat));;
      write_detection_rows csv_path img_path boxes;;
      when (save_labels args)
        (write_label_file labels_dir img_path img boxes);;
      when (save_crops args)
        (save_crop_files crops_dir img_path img boxes);;
      when (save_annotated args)
        (save_annotated_image model annotated_dir img_path img boxes)
  | _ =>
      writerow csv_path (no_detection_row img_path);;
      when (save_labels args) (touch (label_path labels_dir img_path))
  end.

(** The body of the [try] statement for one image (lines 65 to 129). *)
Definition process_image (args : Args) (model : Model) (out : Path)
    (img_path : Path) : M unit :=
  print (MsgProcessing (path_name img_path));;
  boxes ← lift_result
    (predict model img_path (conf_threshold args) (device args));
  (* [img.shape] raises when [cv2.imread] returned [None] *)
  img ← match imread env img_path with
        | Some img => mret img
        | None => raise AttributeError
        end;
  export_detections args model out img_path img boxes;;
  modify (set_processed_images S).

(** ** The batch driver *)

(** [image_files]: the eligible entries, sorted.  All of them have the same
    parent, so the order of the paths is the order of their names. *)
Definition eligible (e : DirEntry) : bool :=
  entry_is_file e
  && bool_decide (lower (snd (split_suffix (entry_name e))) ∈ image_extensions).

Definition list_images (images_path : Path) (entries : list DirEntry)
    : list Path :=
  (λ n, images_path // n)
    <$> merge_sort String.le (entry_name <$> filter eligible entries).

Definition resolve_output (args : Args) : Path :=
  match output_folder args with
  | None => path_parent (images_folder args) // "inference_results"
  | Some o => o
  end.

(** One iteration of the loop over [image_files]. *)
Definition process_guarded (args : Args) (model : Model) (out : Path)
    (img_path : Path) : M unit :=
  try_except (process_image args model out img_path)
    (λ e, print (MsgError (path_name img_path) e)).

(** Lines 47 to 147: the early return on an empty enumeration, otherwise
    the ledger, the loop over the images and the summary. *)
Definition process_batch (args : Args) (model : Model) (out : Path)
    (image_files : list Path) : M (gmap string PyVal) :=
  match image_files with
  | [] =>
      print (MsgNoImages (images_folder args));;
      mret (<["total_images" := PyInt 0]>
            (<["total_detections" := PyInt 0]> ∅))
  | _ :: _ =>
      print (MsgFound (length image_files));;
      modify (set_total_detections (λ _, 0%nat));;
      modify (set_processed_images (λ _, 0%nat));;
      let csv_path := out // "detections.csv" in
      open_csv csv_path;;
      writerow csv_path csv_header;;
      for_each image_files (process_guarded args model out);;
      processed ← gets processed_images;
      total ← gets total_detections;
      print (MsgCompleted processed (length image_files) total csv_path out);;
      mret (<["total_images" := PyInt (Z.of_nat (length image_files))]>
            (<["processed_images" := PyInt (Z.of_nat processed)]>
             (<["total_detections" := PyInt (Z.of_nat total)]>
              (<["output_folder" := PyStr (path_str out)]>
               (<["csv_path" := PyStr (path_str csv_path)]> ∅)))))
  end.

Definition run_yolo_inference (args : Args) : M (gmap string PyVal) :=
  print (MsgLoading (weights_path args));;
  model ← lift_result (YOLO env (weights_path args));
  let images_path := images_folder args in
  let out := resolve_output args in
  mkdir out;;
  when (save_crops args) (mkdir (out // "crops"));;
  when (save_labels args) (mkdir (out // "labels"));;
  when (save_annotated args) (mkdir (out // "annotated"));;
  entries ← lift_result (iterdir env images_path);
  process_batch args model out (list_images images_path entries).

End Script.

Abbreviation Row := (list Cell).

(** ** Python floats as IEEE 754 binary64

    The instance of [FloatOps] used to run the script on concrete inputs:
    the specification of binary64 arithmetic of the Standard Library
    (rounding to nearest, ties to even). *)

Module Binary64.

Definition prec : Z := 53.
Definition emax : Z := 1024.

(** Truncation toward zero; [None] for an infinity or a NaN. *)
Definition trunc (x : spec_float) : option Z :=
  match x with
  | S754_zero _ => Some 0
  | S754_finite s m e =>
      let a := if bool_decide (0 ≤ e) then Z.pos m * 2 ^ e
               else Z.pos m `div` 2 ^ (- e) in
      Some (if s then - a else a)
  | _ => None
  end.

(** [f"{x:.Nf}"]: the exact value rounded to [n] decimals, ties to even. *)
Definition format_fixed (n : nat) (x : spec_float) : string :=
  let sign (s : bool) := if s then "-" else "" in
  let fixed (s : bool) (r : Z) :=
    let scale := 10 ^ Z.of_nat n in
    sign s +:+ pretty (r `div` scale)
    +:+ (if bool_decide (n = 0%nat) then ""
         else "." +:+ zfill n (pretty (r `mod` scale))) in
  match x with
  | S754_nan => "nan"
  | S754_infinity s => sign s +:+ "inf"
  | S754_zero s => fixed s 0
  | S754_finite s m e =>
      let num := Z.pos m * 10 ^ Z.of_nat n * 2 ^ Z.max e 0 in
      let den := 2 ^ Z.max (- e) 0 in
      let q := num `div` den in
      let r := num `mod` den in
      let up := bool_decide (den < 2 * r)
                || (bool_decide (2 * r = den) && Z.odd q) in
      fixed s (if up then q + 1 else q)
  end.

#[export] Instance ops : FloatOps := {|
  float := spec_float;
  fadd := SFadd prec emax;
  fsub := SFsub prec emax;
  fdiv := SFdiv prec emax;
  float_of_int z := binary_normalize prec emax z 0 false;
  int_of_float := trunc;
  tensor_int x := default 0 (trunc x);
  format_f := format_fixed;
|}.

(** The float nearest to the decimal [num / 10^digits]. *)
Definition of_decimal (num : Z) (digits : nat) : spec_float :=
  SFdiv prec emax (binary_normalize prec emax num 0 false)
                  (binary_normalize prec emax (10 ^ Z.of_nat digits) 0 false).

End Binary64.

(** ** Notions used to state the properties *)

Section Observations.
Context `{FO : FloatOps}.

(** The state with an empty ledger, no files and counters at zero. *)
Definition blank : State :=
  {| ledger := []; files := ∅; stdout := [];
     total_detections := 0; processed_images := 0 |}.

(** [m] keeps the relation [P] between the state it starts from and the
    state it ends in, whether it returns or raises. *)
Definition preserves {A} (P : relation State) (m : M A) : Prop :=
  ∀ st, P st (m st).1.

(** [m] does not look at the state: its outcome, the rows it appends to the
    ledger and what it adds to the counters are the same from every state,
    hence those observed from [blank]. *)
Definition uniform {A} (m : M A) : Prop :=
  ∀ st,
    (m st).2 = (m blank).2
    ∧ ledger (m st).1 = ledger st ++ ledger (m blank).1
    ∧ total_detections (m st).1
      = (total_detections st + total_detections (m blank).1)%nat
    ∧ processed_images (m st).1
      = (processed_images st + processed_images (m blank).1)%nat.

(** Only the files of the output tree may differ. *)
Definition files_only (st st' : State) : Prop :=
  ledger st' = ledger st ∧ stdout st' = stdout st
  ∧ total_detections st' = total_detections st
  ∧ processed_images st' = processed_images st.

(** Only the ledger may differ. *)
Definition ledger_only (st st' : State) : Prop :=
  files st' = files st ∧ stdout st' = stdout st
  ∧ total_detections st' = total_detections st
  ∧ processed_images st' = processed_images st.

(** The file at [q] is the same. *)
Definition same_file (q : Path) (st st' : State) : Prop :=
  files st' !! q = files st !! q.

(** The counters are the same. *)
Definition same_counters (st st' : State) : Prop :=
  total_detections st' = total_detections st
  ∧ processed_images st' = processed_images st.

(** Every file that existed still exists. *)
Definition files_kept (st st' : State) : Prop :=
  ∀ q, is_Some (files st !! q) → is_Some (files st' !! q).

(** The ledger has only grown. *)
Definition ledger_grows (st st' : State) : Prop :=
  ledger st `prefix_of` ledger st'.

(** The image at [img_path] is processed without error / with an error. *)
Definition image_succeeds (env : Env) (args : Args) (model : Model)
    (out img_path : Path) : Prop :=
  ∀ st, ∃ st', process_image env args model out img_path st = (st', inr tt).

Definition image_fails (env : Env) (args : Args) (model : Model)
    (out img_path : Path) : Prop :=
  ∀ st, ∃ st' e, process_image env args model out img_path st = (st', inl e).

(** What processing an image does, observed from the blank state: whether
    it completes, and the rows it appends to the ledger in either case. *)
Definition image_ok (env : Env) (args : Args) (model : Model)
    (out img_path : Path) : bool :=
  match (process_image env args model out img_path blank).2 with
  | inr _ => true
  | inl _ => false
  end.

Definition rows_written (env : Env) (args : Args) (model : Model)
    (out img_path : Path) : list Row :=
  ledger (process_image env args model out img_path blank).1.

(** The number of detections of an image once the detector has answered
    and the image has been decoded, zero otherwise. *)
Definition detections_counted (env : Env) (args : Args) (model : Model)
    (img_path : Path) : nat :=
  match predict model img_path (conf_threshold args) (device args),
        imread env img_path with
  | inr (Some boxes), Some _ => length boxes
  | _, _ => 0
  end.

(** The detections of an image: what the detector returns for it, an
    absent [boxes] standing for no detection. *)
Definition detections (args : Args) (model : Model) (img_path : Path)
    : exn + list Box :=
  match predict model img_path (conf_threshold args) (device args) with
  | inl e => inl e
  | inr boxes => inr (default [] boxes)
  end.

(** The ledger rows that the specification gives to an image whose
    detections are [dets]: one row per detection, labelled with its 1-based
    position and carrying its confidence, or the single sentinel row. *)
Definition image_rows (img_path : Path) (dets : list Box) : list Row :=
  let dossier := CStr (path_name (path_parent img_path)) in
  let image := CStr (path_name img_path) in
  match dets with
  | [] => [[dossier; image; CStr "no-detection"; CStr ""]]
  | _ =>
      imap (λ k box,
              [dossier; image; CStr ("detection" +:+ pretty (S k));
               CFloat (box_conf box)]) dets
  end.

(** The setup of a run succeeds up to the enumeration of the images. *)
Definition setup_ok (env : Env) (args : Args) (model : Model)
    (entries : list DirEntry) : Prop :=
  let out := resolve_output args in
  YOLO env (weights_path args) = inr model
  ∧ io_error env (OpMkdir out) = None
  ∧ (save_crops args → io_error env (OpMkdir (out // "crops")) = None)
  ∧ (save_labels args → io_error env (OpMkdir (out // "labels")) = None)
  ∧ (save_annotated args → io_error env (OpMkdir (out // "annotated")) = None)
  ∧ iterdir env (images_folder args) = inr entries.

(** The first error of the setup, in the order of the script: loading the
    model, creating the output folder and the folders of the enabled flags,
    listing the images folder. *)
Definition setup_error (env : Env) (args : Args) : option exn :=
  let out := resolve_output args in
  let dirs :=
    [out] ++ (if save_crops args then [out // "crops"] else [])
          ++ (if save_labels args then [out // "labels"] else [])
          ++ (if save_annotated args then [out // "annotated"] else []) in
  match YOLO env (weights_path args) with
  | inl e => Some e
  | inr _ =>
      match list_find is_Some ((λ d, io_error env (OpMkdir d)) <$> dirs) with
      | Some (_, Some e) => Some e
      | _ =>
          match iterdir env (images_folder args) with
          | inl e => Some e
          | inr _ => None
          end
      end
  end.

(** The ledger can be opened and its header written. *)
Definition ledger_ok (env : Env) (args : Args) : Prop :=
  let csv_path := resolve_output args // "detections.csv" in
  io_error env (OpOpenW csv_path) = None
  ∧ io_error env (OpWriterow csv_path csv_header) = None.

End Observations.

(** ** A concrete batch

    A folder with three images and a text file, a detector that finds two
    arthropods on [a.jpg] and none on [b.png], and a file [c.JPG] that cannot
    be decoded.  The faults of the file operations and the behaviour of
    [cv2.imwrite] are left as parameters. *)

Module Example.
Import Binary64.

Definition photos : Path := ["data"; "photos"].
Definition results : Path := ["data"; "inference_results"].

Definition num (n : Z) : spec_float := binary_normalize prec emax n 0 false.

(** Class 0 with confidence 0.9 at (10, 10, 50, 60). *)
Definition box1 : Box :=
  {| box_cls := num 0; box_conf := of_decimal 9 1;
     box_xyxy := (num 10, num 10, num 50, num 60) |}.

(** Class 1 with confidence 0.4 at (20.5, 30, 100, 80.25). *)
Definition box2 : Box :=
  {| box_cls := num 1; box_conf := of_decimal 4 1;
     box_xyxy := (of_decimal 205 1, num 30, num 100, of_decimal 8025 2) |}.

Definition model : Model :=
  {| predict p _ _ :=
       if String.eqb (path_name p) "a.jpg" then inr (Some [box1; box2])
       else if String.eqb (path_name p) "b.png" then inr (Some [])
       else inr None;
     names := {[ 0 := "ant"; 1 := "bee" ]} |}.

Definition entries : list DirEntry :=
  [ {| entry_name := "c.JPG"; entry_is_file := true |};
    {| entry_name := "notes.txt"; entry_is_file := true |};
    {| entry_name := "b.png"; entry_is_file := true |};
    {| entry_name := "old.jpg"; entry_is_file := false |};
    {| entry_name := "a.jpg"; entry_is_file := true |} ].

Definition image : Image := {| img_height := 100; img_width := 200 |}.

Definition env (dir : list DirEntry) (imw : Path → Content → exn + bool)
    (faults : IOop → option exn) : Env :=
  {| YOLO _ := inr model;
     iterdir _ := inr dir;
     imread p := if String.eqb (path_name p) "c.JPG" then None else Some image;
     imwrite := imw;
     io_error := faults |}.

Definition imwrite_ok : Path → Content → exn + bool := λ _ _, inr true.
Definition no_fault : IOop → option exn := λ _, None.

(** [cv2.imwrite] raises on the second crop of [a.jpg]. *)
Definition imwrite_crop_error : Path → Content → exn + bool := λ p _,
  if String.eqb (path_name p) "a_crop_001.jpg"
  then inl (CvError "could not write") else inr true.

Definition args (crops labels annotated : bool) : Args :=
  {| weights_path := "best.pt"; images_folder := photos;
     output_folder := None;
     save_crops := crops; save_labels := labels; save_annotated := annotated;
     conf_threshold := of_decimal 25 2; device := "cpu" |}.

Definition a_jpg : Path := photos // "a.jpg".
Definition b_png : Path := photos // "b.png".
Definition c_JPG : Path := photos // "c.JPG".

(** A state left by an earlier run: a ledger and a label file for [b.png]. *)
Definition stale : State :=
  {| ledger := [[CStr "old"]];
     files := {[ results // "labels" // "b.txt" := Text ["0 0.5 0.5 0.1 0.1"] ]};
     stdout := []; total_detections := 0; processed_images := 0 |}.

End Example.


(** * Properties *)

Ltac unfold_M :=
  unfold mbind, M_bind, mret, M_ret, lift_result, raise, print, modify,
    gets, when in *.

Section Monad.
Context `{FO : FloatOps}.

Lemma bind_inr_inv {A B} (m : M A) (k : A → M B) st st' b :
  (m ≫= k) st = (st', inr b) →
  ∃ st1 a, m st = (st1, inr a) ∧ k a st1 = (st', inr b).
Proof.
  unfold mbind, M_bind. destruct (m st) as [st1 [e|a]]; [done|]. eauto.
Qed.

Lemma bind_inl_inv {A B} (m : M A) (k : A → M B) st st' e :
  (m ≫= k) st = (st', inl e) →
  m st = (st', inl e) ∨ ∃ st1 a, m st = (st1, inr a) ∧ k a st1 = (st', inl e).
Proof.
  unfold mbind, M_bind. destruct (m st) as [st1 [e1|a]]; intros ?; simplify_eq; eauto.
Qed.

Lemma bind_inr {A B} (m : M A) (k : A → M B) st st1 a :
  m st = (st1, inr a) → (m ≫= k) st = k a st1.
Proof. unfold mbind, M_bind. by intros ->. Qed.

Lemma bind_inl {A B} (m : M A) (k : A → M B) st st1 e :
  m st = (st1, inl e) → (m ≫= k) st = (st1, inl e).
Proof. unfold mbind, M_bind. by intros ->. Qed.

Lemma io_ok env op f st : io_error env op = None → io env op f st = (f st, inr tt).
Proof. unfold io. by intros ->. Qed.

Lemma io_inr_inv env op f st st' u :
  io env op f st = (st', inr u) → io_error env op = None ∧ st' = f st.
Proof.
  unfold io. destruct (io_error env op); [done|]. unfold modify. naive_solver.
Qed.

Lemma io_inl_inv env op f st st' e :
  io env op f st = (st', inl e) → io_error env op = Some e ∧ st' = st.
Proof.
  unfold io. destruct (io_error env op); [|done]. unfold raise. naive_solver.
Qed.

Lemma lift_result_inr_inv {A} (r : exn + A) st st' a :
  lift_result r st = (st', inr a) → r = inr a ∧ st' = st.
Proof. destruct r; unfold lift_result, raise, mret, M_ret; intros ?; by simplify_eq. Qed.

Lemma lift_result_inl_inv {A} (r : exn + A) st st' e :
  lift_result r st = (st', inl e) → r = inl e ∧ st' = st.
Proof. destruct r; unfold lift_result, raise, mret, M_ret; intros ?; by simplify_eq. Qed.

Lemma for_each_fmap {A B} (g : A → B) (l : list A) (f : B → M unit) :
  for_each (g <$> l) f = for_each l (f ∘ g).
Proof. induction l as [|x l IH]; simpl; [done|]. by rewrite <-IH. Qed.

Lemma enumerate_imap {A} (l : list A) s :
  enumerate s l = imap (λ k x, ((s + k)%nat, x)) l.
Proof.
  revert s. induction l as [|x l IH]; intros s; simpl; [done|].
  rewrite Nat.add_0_r, IH. f_equal. apply imap_ext. intros k y _. simpl.
  f_equal. lia.
Qed.

Lemma enumerate_lookup {A} (l : list A) s k :
  enumerate s l !! k = (λ x, ((s + k)%nat, x)) <$> l !! k.
Proof. by rewrite enumerate_imap, list_lookup_imap. Qed.

Lemma enumerate_length {A} (l : list A) s : length (enumerate s l) = length l.
Proof. by rewrite enumerate_imap, length_imap. Qed.

Lemma elem_of_enumerate {A} (l : list A) s i x :
  (i, x) ∈ enumerate s l → ∃ k, i = (s + k)%nat ∧ l !! k = Some x.
Proof.
  intros [k Hk]%list_elem_of_lookup_1. rewrite enumerate_lookup in Hk.
  destruct (l !! k) as [y|] eqn:Hl; simplify_eq/=. eauto.
Qed.

(** *** Relations kept by every step *)

Section Preserves.
Context (P : relation State) `{!Reflexive P, !Transitive P}.

Lemma preserves_ret {A} (a : A) : preserves P (mret a).
Proof. by intros st. Qed.

Lemma preserves_raise {A} e : preserves P (raise (A:=A) e).
Proof. by intros st. Qed.

Lemma preserves_lift_result {A} (r : exn + A) : preserves P (lift_result r).
Proof. destruct r; [apply preserves_raise|apply preserves_ret]. Qed.

Lemma preserves_modify f : (∀ st, P st (f st)) → preserves P (modify f).
Proof. intros Hf st. apply Hf. Qed.

Lemma preserves_io env op f : (∀ st, P st (f st)) → preserves P (io env op f).
Proof.
  intros Hf. unfold io. destruct (io_error env op).
  - apply preserves_raise.
  - by apply preserves_modify.
Qed.

Lemma preserves_bind {A B} (m : M A) (k : A → M B) :
  preserves P m → (∀ a, preserves P (k a)) → preserves P (m ≫= k).
Proof.
  intros Hm Hk st. specialize (Hm st). unfold mbind, M_bind.
  destruct (m st) as [st1 [e|a]]; [done|].
  etrans; [exact Hm|apply Hk].
Qed.

Lemma preserves_when b m : preserves P m → preserves P (when b m).
Proof. destruct b; [done|]. intros _. apply preserves_ret. Qed.


Lemma preserves_gets {A} (f : State → A) : preserves P (gets f).
Proof. by intros st. Qed.

Lemma preserves_for_each {A} (l : list A) f :
  (∀ x, x ∈ l → preserves P (f x)) → preserves P (for_each l f).
Proof.
  induction l as [|x l IH]; intros Hf; simpl.
  - apply preserves_ret.
  - apply preserves_bind.
    + apply Hf. left.
    + intros _. apply IH. intros y Hy. apply Hf. by right.
Qed.

Lemma preserves_try_except body handler :
  preserves P body → (∀ e, preserves P (handler e)) →
  preserves P (try_except body handler).
Proof.
  intros Hb Hh st. specialize (Hb st). unfold try_except.
  destruct (body st) as [st1 [e|[]]]; [|done].
  etrans; [exact Hb|apply Hh].
Qed.

End Preserves.

#[global] Instance files_only_refl : Reflexive files_only.
Proof. by intros st. Qed.
#[global] Instance files_only_trans : Transitive files_only.
Proof.
  intros ??? (?&?&?&?) (?&?&?&?). unfold files_only. repeat split; congruence.
Qed.
#[global] Instance ledger_only_refl : Reflexive ledger_only.
Proof. by intros st. Qed.
#[global] Instance ledger_only_trans : Transitive ledger_only.
Proof.
  intros ??? (?&?&?&?) (?&?&?&?). unfold ledger_only. repeat split; congruence.
Qed.
#[global] Instance same_file_refl q : Reflexive (same_file q).
Proof. by intros st. Qed.
#[global] Instance same_file_trans q : Transitive (same_file q).
Proof. unfold same_file. intros ???; congruence. Qed.
#[global] Instance same_counters_refl : Reflexive same_counters.
Proof. by intros st. Qed.
#[global] Instance same_counters_trans : Transitive same_counters.
Proof. intros ??? [??] [??]. unfold same_counters. split; congruence. Qed.
#[global] Instance files_kept_refl : Reflexive files_kept.
Proof. by intros st q ?. Qed.
#[global] Instance files_kept_trans : Transitive files_kept.
Proof. unfold files_kept. intros ??? H1 H2 q ?. eauto. Qed.
#[global] Instance ledger_grows_refl : Reflexive ledger_grows.
Proof. intros st. unfold ledger_grows. reflexivity. Qed.
#[global] Instance ledger_grows_trans : Transitive ledger_grows.
Proof. unfold ledger_grows. intros ???; by etrans. Qed.

(** *** Steps that do not look at the state *)

Lemma uniform_ret {A} (a : A) : uniform (mret a).
Proof. intros st. cbn. rewrite app_nil_r. auto with lia. Qed.

Lemma uniform_raise {A} e : uniform (raise (A:=A) e).
Proof. intros st. cbn. rewrite app_nil_r. auto with lia. Qed.

Lemma uniform_lift_result {A} (r : exn + A) : uniform (lift_result r).
Proof. destruct r; [apply uniform_raise|apply uniform_ret]. Qed.

Lemma uniform_modify f :
  (∀ st, ledger (f st) = ledger st ++ ledger (f blank)
       ∧ total_detections (f st)
         = (total_detections st + total_detections (f blank))%nat
       ∧ processed_images (f st)
         = (processed_images st + processed_images (f blank))%nat) →
  uniform (modify f).
Proof. intros Hf st. cbn. split; [done|apply Hf]. Qed.

Lemma uniform_modify_files f : uniform (modify (set_files f)).
Proof. apply uniform_modify. intros st. cbn. rewrite app_nil_r. auto with lia. Qed.

Lemma uniform_print m : uniform (print m).
Proof. apply uniform_modify. intros st. cbn. rewrite app_nil_r. auto with lia. Qed.

Lemma uniform_io env op f : uniform (modify f) → uniform (io env op f).
Proof. unfold io. destruct (io_error env op); [intros _; apply uniform_raise|done]. Qed.

Lemma uniform_bind {A B} (m : M A) (k : A → M B) :
  uniform m → (∀ a, uniform (k a)) → uniform (m ≫= k).
Proof.
  intros Hm Hk st.
  destruct (Hm st) as (Hr & Hl & Ht & Hp).
  unfold mbind, M_bind.
  destruct (m st) as [st1 r], (m blank) as [b1 rb]; simpl in *. subst rb.
  destruct r as [e|a]; simpl; [done|].
  destruct (Hk a st1) as (Hr1 & Hl1 & Ht1 & Hp1).
  destruct (Hk a b1) as (Hr2 & Hl2 & Ht2 & Hp2).
  rewrite Hr1, Hr2, Hl1, Hl2, Ht1, Ht2, Hp1, Hp2, Hl, Ht, Hp.
  rewrite <-(assoc_L (++)). auto with lia.
Qed.

Lemma uniform_when b m : uniform m → uniform (when b m).
Proof. destruct b; [done|]. intros _. apply uniform_ret. Qed.

Lemma uniform_for_each {A} (l : list A) f :
  (∀ x, uniform (f x)) → uniform (for_each l f).
Proof.
  intros Hf. induction l as [|x l IH]; simpl.
  - apply uniform_ret.
  - apply uniform_bind; [apply Hf|by intros _].
Qed.

Lemma uniform_try_except body handler :
  uniform body → (∀ e, uniform (handler e)) → uniform (try_except body handler).
Proof.
  intros Hm Hk st.
  destruct (Hm st) as (Hr & Hl & Ht & Hp).
  unfold try_except.
  destruct (body st) as [st1 r], (body blank) as [b1 rb]; simpl in *. subst rb.
  destruct r as [e|[]]; simpl; [|done].
  destruct (Hk e st1) as (Hr1 & Hl1 & Ht1 & Hp1).
  destruct (Hk e b1) as (Hr2 & Hl2 & Ht2 & Hp2).
  rewrite Hr1, Hr2, Hl1, Hl2, Ht1, Ht2, Hp1, Hp2, Hl, Ht, Hp.
  rewrite <-(assoc_L (++)). auto with lia.
Qed.

End Monad.

(** ** File names *)

Section Names.

Lemma string_app_length (s t : string) :
  String.length (s +:+ t) = (String.length s + String.length t)%nat.
Proof. induction s as [|a s IH]; simpl; [done|]. by rewrite <-IH. Qed.

Lemma string_app_assoc (s t u : string) : (s +:+ t) +:+ u = s +:+ t +:+ u.
Proof.
  induction s as [|a s IH]; [done|].
  change (String a ((s +:+ t) +:+ u) = String a (s +:+ t +:+ u)). by rewrite IH.
Qed.

Lemma string_app_inv_tail (s1 s2 t : string) : s1 +:+ t = s2 +:+ t → s1 = s2.
Proof.
  revert s2. induction s1 as [|a s1 IH]; intros [|b s2] Heq; [done|..].
  - apply (f_equal String.length) in Heq.
    rewrite !string_app_length in Heq. simpl in Heq. lia.
  - apply (f_equal String.length) in Heq.
    rewrite !string_app_length in Heq. simpl in Heq. lia.
  - change (String a (s1 +:+ t) = String b (s2 +:+ t)) in Heq.
    injection Heq as -> Heq. f_equal. by apply IH.
Qed.

(** The number that a string of decimal digits denotes. *)
Definition digit_value (c : ascii) : N := (N_of_ascii c - 48)%N.

Fixpoint digits_value (acc : N) (s : string) : N :=
  match s with
  | EmptyString => acc
  | String c s' => digits_value (acc * 10 + digit_value c)%N s'
  end.

Lemma digits_value_app acc s t :
  digits_value acc (s +:+ t) = digits_value (digits_value acc s) t.
Proof. revert acc. induction s as [|a s IH]; intros acc; simpl; [done|apply IH]. Qed.

Lemma digit_value_pretty (d : N) : (d < 10)%N → digit_value (pretty_N_char d) = d.
Proof.
  intros Hd.
  assert (d = 0 ∨ d = 1 ∨ d = 2 ∨ d = 3 ∨ d = 4 ∨ d = 5 ∨ d = 6 ∨ d = 7
          ∨ d = 8 ∨ d = 9)%N as Hcases by lia.
  repeat destruct Hcases as [->|Hcases]; try reflexivity. by subst.
Qed.

Lemma pretty_N_go_app (x : N) (s : string) :
  pretty_N_go x s = pretty_N_go x "" +:+ s.
Proof.
  revert s. induction (N.lt_wf_0 x) as [x _ IH]; intros s.
  destruct (decide (x = 0)%N) as [->|Hx]; [done|].
  assert (x `div` 10 < x)%N as Hlt by (apply N.div_lt; lia).
  rewrite !(pretty_N_go_step x) by lia.
  rewrite (IH _ Hlt (String _ s)), (IH _ Hlt (String _ "")).
  by rewrite string_app_assoc.
Qed.

Lemma digits_value_pretty_N_go (x : N) : digits_value 0 (pretty_N_go x "") = x.
Proof.
  induction (N.lt_wf_0 x) as [x _ IH].
  destruct (decide (x = 0)%N) as [->|Hx]; [done|].
  assert (x `div` 10 < x)%N as Hlt by (apply N.div_lt; lia).
  rewrite pretty_N_go_step, pretty_N_go_app, digits_value_app by lia.
  rewrite (IH _ Hlt). simpl.
  rewrite digit_value_pretty by (apply N.mod_lt; lia).
  rewrite (N.div_mod x 10) at 3 by lia. lia.
Qed.

Lemma digits_value_pretty (i : nat) : digits_value 0 (pretty i) = N.of_nat i.
Proof.
  unfold pretty, pretty_nat, pretty, pretty_N.
  case_decide as Hi; [by rewrite Hi|apply digits_value_pretty_N_go].
Qed.

Lemma digits_value_zfill width s :
  digits_value 0 (zfill width s) = digits_value 0 s.
Proof.
  unfold zfill. induction (width - String.length s)%nat as [|n IH]; [done|].
  simpl. apply IH.
Qed.

Lemma format_03d_inj i j : format_03d i = format_03d j → i = j.
Proof.
  intros Heq. apply (f_equal (digits_value 0)) in Heq.
  unfold format_03d in Heq.
  rewrite !digits_value_zfill, !digits_value_pretty in Heq. lia.
Qed.

Lemma path_div_inj (p q : Path) (s t : string) : p // s = q // t → p = q ∧ s = t.
Proof. apply app_inj_tail. Qed.

Lemma string_app_nil_r (s : string) : s +:+ "" = s.
Proof.
  induction s as [|c s IH]; [done|].
  change (String c (s +:+ "") = String c s). by rewrite IH.
Qed.

Lemma substring_all (s : string) : String.substring 0 (String.length s) s = s.
Proof. induction s as [|c s IH]; simpl; [done|]. by rewrite IH. Qed.

Lemma substring_split (s : string) (i : nat) :
  (i ≤ String.length s)%nat →
  String.substring 0 i s +:+ String.substring i (String.length s - i) s = s.
Proof.
  revert i. induction s as [|c s IH]; intros [|i] Hi; simpl in *; try done.
  - rewrite substring_all. done.
  - change (String c (String.substring 0 i s
                      +:+ String.substring i (String.length s - i) s)
            = String c s).
    rewrite IH by lia. done.
Qed.

(** A name is its stem followed by its suffix, and the suffix, when there
    is one, leaves a stem that is not empty. *)
Lemma split_suffix_spec (name : string) :
  (split_suffix name).1 +:+ (split_suffix name).2 = name
  ∧ ((split_suffix name).2 ≠ "" → (split_suffix name).1 ≠ "").
Proof.
  unfold split_suffix.
  destruct (rfind_dot name) as [i|]; [|by split; [apply string_app_nil_r|]].
  case_bool_decide as Hi; [|by split; [apply string_app_nil_r|]].
  simpl. split.
  - apply substring_split. lia.
  - intros _. destruct name as [|c name]; simpl in *; [lia|].
    destruct i as [|i]; [lia|]. done.
Qed.

End Names.

(** One step of a proof that a computation keeps a relation. *)
Ltac preserves_step :=
  lazymatch goal with
  | |- preserves _ (mret _) => apply preserves_ret; apply _
  | |- preserves _ (raise _) => apply preserves_raise; apply _
  | |- preserves _ (lift_result _) => apply preserves_lift_result; apply _
  | |- preserves _ (_ ≫= _) => apply preserves_bind; [apply _| |intros ?]
  | |- preserves _ (when _ _) => apply preserves_when; [apply _|]
  | |- preserves _ (for_each _ _) =>
      apply preserves_for_each; [apply _|apply _|intros ? ?]
  | |- preserves _ (try_except _ _) =>
      apply preserves_try_except; [apply _| |intros ?]
  | |- preserves _ (io _ _ _) => apply preserves_io; [apply _|intros ?]
  | |- preserves _ (modify _) => apply preserves_modify; intros ?
  | |- preserves _ (print _) => apply preserves_modify; intros ?
  end.

(** ** The export of one image *)

Section Exporter.
Context `{FO : FloatOps} (env : Env).

Ltac uniform_step :=
  first
    [ apply uniform_ret | apply uniform_raise | apply uniform_lift_result
    | apply uniform_print | apply uniform_modify_files
    | apply uniform_io
    | apply uniform_bind; [|intros ?]
    | apply uniform_when | apply uniform_for_each; intros ?
    | apply uniform_try_except; [|intros ?] ].

Lemma uniform_writerow p r : uniform (writerow env p r).
Proof.
  apply uniform_io, uniform_modify. intros st. cbn. auto with lia.
Qed.

Lemma uniform_cv2_imwrite p c : uniform (cv2_imwrite env p c).
Proof.
  unfold cv2_imwrite. uniform_step; [uniform_step|].
  destruct a; uniform_step.
Qed.

Lemma uniform_export_detections args model out img_path img boxes :
  uniform (export_detections env args model out img_path img boxes).
Proof.
  unfold export_detections. destruct boxes as [[|box boxes]|].
  - uniform_step; [apply uniform_writerow|]. unfold touch. repeat uniform_step.
  - uniform_step.
    { apply uniform_modify. intros st. cbn. rewrite app_nil_r. auto with lia. }
    unfold write_detection_rows, write_label_file, save_crop_files,
      save_annotated_image, open_w, write_line.
    repeat first [apply uniform_writerow | apply uniform_cv2_imwrite | uniform_step].
  - uniform_step; [apply uniform_writerow|]. unfold touch. repeat uniform_step.
Qed.

Lemma uniform_process_image args model out img_path :
  uniform (process_image env args model out img_path).
Proof.
  unfold process_image. repeat uniform_step.
  - destruct (imread env img_path); uniform_step.
  - apply uniform_export_detections.
  - apply uniform_modify. intros st. cbn. rewrite app_nil_r. auto with lia.
Qed.

(** *** What each phase leaves alone *)


Lemma cv2_imwrite_files_only p c : preserves files_only (cv2_imwrite env p c).
Proof.
  unfold cv2_imwrite. preserves_step; [preserves_step|].
  destruct a; preserves_step; done.
Qed.

Lemma write_detection_rows_ledger_only csv_path img_path boxes :
  preserves ledger_only (write_detection_rows env csv_path img_path boxes).
Proof. unfold write_detection_rows, writerow. repeat preserves_step. done. Qed.

Lemma write_label_file_files_only labels_dir img_path img boxes :
  preserves files_only (write_label_file env labels_dir img_path img boxes).
Proof.
  unfold write_label_file, open_w, write_line. repeat preserves_step; done.
Qed.

Lemma save_crop_files_files_only crops_dir img_path img boxes :
  preserves files_only (save_crop_files env crops_dir img_path img boxes).
Proof.
  unfold save_crop_files. preserves_step. apply cv2_imwrite_files_only.
Qed.

Lemma save_annotated_image_files_only model annotated_dir img_path img boxes :
  preserves files_only
    (save_annotated_image env model annotated_dir img_path img boxes).
Proof.
  unfold save_annotated_image. repeat preserves_step.
  apply cv2_imwrite_files_only.
Qed.

(** *** The ledger rows *)

Lemma for_each_writerow_inv csv_path (rows : list Row) st st' r :
  for_each rows (writerow env csv_path) st = (st', r) →
  ∃ k, ledger st' = ledger st ++ take k rows
       ∧ (r = inr tt → k = length rows)
       ∧ (∀ e, r = inl e →
            ∃ row, rows !! k = Some row
                   ∧ io_error env (OpWriterow csv_path row) = Some e).
Proof.
  revert st. induction rows as [|row rows IH]; intros st; simpl.
  - intros [= <- <-]. exists 0%nat. rewrite app_nil_r. naive_solver.
  - unfold mbind, M_bind, writerow at 1, io.
    destruct (io_error env (OpWriterow csv_path row)) as [e|] eqn:Hrow; cbn.
    + intros [= <- <-]. exists 0%nat. rewrite app_nil_r.
      split_and!; [done|done|]. intros ? [= <-]. eauto.
    + intros (k & Hl & Hk & He)%IH. exists (S k). cbn in Hl.
      rewrite Hl, <-(assoc_L (++)). split_and!; [done|naive_solver|done].
Qed.

Lemma for_each_writerow_run csv_path (rows : list Row) st :
  Forall (λ row, io_error env (OpWriterow csv_path row) = None) rows →
  ∃ st', for_each rows (writerow env csv_path) st = (st', inr tt).
Proof.
  intros Hrows. revert st. induction Hrows as [|row rows Hrow _ IH]; intros st.
  - by eexists.
  - simpl. unfold writerow at 1. erewrite bind_inr by by apply io_ok.
    apply IH.
Qed.

(** The rows of the detections of an image, as the loop of line 76 emits
    them. *)
Lemma detection_rows_lookup img_path (boxes : list Box) k :
  ((λ ib, detection_row img_path ib.1 ib.2) <$> enumerate 1 boxes) !! k
  = (λ box, detection_row img_path (S k) box) <$> boxes !! k.
Proof.
  rewrite list_lookup_fmap, enumerate_lookup. by destruct (boxes !! k).
Qed.

Lemma detection_rows_image_rows img_path box boxes :
  (λ ib, detection_row img_path ib.1 ib.2) <$> enumerate 1 (box :: boxes)
  = image_rows img_path (box :: boxes).
Proof. by rewrite enumerate_imap, fmap_imap. Qed.

Lemma bind_inv {A B} (m : M A) (k : A → M B) st st' r :
  (m ≫= k) st = (st', r) →
  (∃ e, m st = (st', inl e) ∧ r = inl e)
  ∨ (∃ st1 a, m st = (st1, inr a) ∧ k a st1 = (st', r)).
Proof.
  unfold mbind, M_bind. destruct (m st) as [st1 [e|a]]; intros ?.
  - left. exists e. by simplify_eq.
  - right. eauto.
Qed.

(** Once the rows of an image are written, the ledger and the counters
    stay as they are until the end of its export. *)
Lemma save_artifacts_files_only args model out img_path img boxes :
  preserves files_only
    (when (save_labels args)
       (write_label_file env (out // "labels") img_path img boxes);;
     when (save_crops args)
       (save_crop_files env (out // "crops") img_path img boxes);;
     when (save_annotated args)
       (save_annotated_image env model (out // "annotated") img_path img boxes)).
Proof.
  repeat preserves_step.
  - apply write_label_file_files_only.
  - apply save_crop_files_files_only.
  - apply save_annotated_image_files_only.
Qed.

Lemma touch_files_only p : preserves files_only (touch env p).
Proof. unfold touch. preserves_step. done. Qed.

Lemma write_detection_rows_for_each csv_path img_path boxes :
  write_detection_rows env csv_path img_path boxes
  = for_each ((λ ib, detection_row img_path ib.1 ib.2) <$> enumerate 1 boxes)
      (writerow env csv_path).
Proof. by rewrite for_each_fmap. Qed.

Lemma export_detections_files_kept args model out img_path img boxes :
  preserves files_kept (export_detections env args model out img_path img boxes).
Proof.
  assert (∀ p c st, files_kept st (set_files <[p:=c]> st)) as Hins.
  { intros p c st q Hq. cbn. destruct (decide (p = q)) as [->|].
    - rewrite lookup_insert_eq. eauto.
    - by rewrite lookup_insert_ne. }
  unfold export_detections, write_detection_rows, write_label_file,
    save_crop_files, save_annotated_image, cv2_imwrite, writerow, open_w,
    write_line, touch.
  destruct boxes as [[|box boxes]|]; repeat preserves_step;
    try done; try apply Hins.
  all: try (destruct a; repeat preserves_step; apply Hins).
  all: intros q Hq; cbn; repeat case_match; try done; by apply Hins.
Qed.

Lemma export_detections_inv args model out img_path img boxes st st' r :
  export_detections env args model out img_path img boxes st = (st', r) →
  let rows := image_rows img_path (default [] boxes) in
  ∃ k, ledger st' = ledger st ++ take k rows
       ∧ (r = inr tt → k = length rows)
       ∧ (Forall (λ row, io_error env (OpWriterow (out // "detections.csv") row)
                         = None) rows → k = length rows)
       ∧ total_detections st'
         = (total_detections st
            + match boxes with Some bs => length bs | None => 0 end)%nat
       ∧ processed_images st' = processed_images st
       ∧ stdout st' = stdout st.
Proof.
  intros Hrun rows.
  assert (∀ st1,
    (writerow env (out // "detections.csv") (no_detection_row img_path);;
     when (save_labels args) (touch env (label_path (out // "labels") img_path)))
      st1 = (st', r) →
    ∃ k, ledger st' = ledger st1 ++ take k [no_detection_row img_path]
         ∧ (r = inr tt → k = 1%nat)
         ∧ (Forall (λ row, io_error env
                      (OpWriterow (out // "detections.csv") row) = None)
              [no_detection_row img_path] → k = 1%nat)
         ∧ total_detections st' = total_detections st1
         ∧ processed_images st' = processed_images st1
         ∧ stdout st' = stdout st1) as Hsentinel.
  { intros st1 [(e & Hrow & ->)|(st2 & [] & Hrow & Hrest)]%bind_inv.
    - apply io_inl_inv in Hrow as [Hfault ->]. exists 0%nat.
      rewrite app_nil_r. split_and!; try done.
      intros [Hok _]%Forall_cons. congruence.
    - apply io_inr_inv in Hrow as [_ ->].
      pose proof (preserves_when _ (save_labels args) _
        (touch_files_only (label_path (out // "labels") img_path))
        (set_ledger (λ rows, rows ++ [no_detection_row img_path]) st1)) as Hp.
      rewrite Hrest in Hp. cbn in Hp. destruct Hp as (Hl & Ho & Ht & Hp).
      exists 1%nat. rewrite Hl, Ho, Ht, Hp. by cbn. }
  unfold export_detections in Hrun.
  destruct boxes as [[|box boxes]|].
  1,3: apply Hsentinel in Hrun as (k & ? & ? & ? & ? & ? & ?); exists k;
       split_and!; try done; cbn; lia.
  clear Hsentinel. subst rows.
  change (default [] (Some (box :: boxes))) with (box :: boxes).
  rewrite <-detection_rows_image_rows.
  set (bs := box :: boxes) in *.
  set (rows := (λ ib, detection_row img_path ib.1 ib.2) <$> enumerate 1 bs).
  apply bind_inv in Hrun as [(e & [=] & _)|(st1 & [] & [= <-] & Hrun)].
  rewrite write_detection_rows_for_each in Hrun. fold rows in Hrun.
  pose proof (write_detection_rows_ledger_only (out // "detections.csv")
    img_path bs) as Hframe.
  rewrite write_detection_rows_for_each in Hframe. fold rows in Hframe.
  apply bind_inv in Hrun as [(e & Hrows & ->)|(st2 & [] & Hrows & Hrun)];
    match type of Hrows with _ ?s = _ => specialize (Hframe s) end.
  - rewrite Hrows in Hframe. cbn in Hframe. destruct Hframe as (_ & Ho & Ht & Hp).
    apply for_each_writerow_inv in Hrows as (k & Hl & _ & Hk).
    destruct (Hk e eq_refl) as (row & Hrow & Hfault).
    exists k. rewrite Hl, Ho, Ht, Hp. split_and!; try done.
    intros Hok. rewrite Forall_lookup in Hok. specialize (Hok _ _ Hrow).
    congruence.
  - rewrite Hrows in Hframe. cbn in Hframe. destruct Hframe as (_ & Ho & Ht & Hp).
    apply for_each_writerow_inv in Hrows as (k & Hl & Hk & _).
    specialize (Hk eq_refl) as ->.
    pose proof (save_artifacts_files_only args model out img_path img bs st2)
      as Hart.
    rewrite Hrun in Hart. cbn in Hart. destruct Hart as (Hl' & Ho' & Ht' & Hp').
    exists (length rows). rewrite Hl', Ho', Ht', Hp', Hl, Ho, Ht, Hp.
    by cbn.
Qed.

Lemma process_image_unfold args model out img_path st :
  process_image env args model out img_path st =
  let st0 := set_stdout (λ o, o ++ [MsgProcessing (path_name img_path)]) st in
  match predict model img_path (conf_threshold args) (device args) with
  | inl e => (st0, inl e)
  | inr boxes =>
      match imread env img_path with
      | None => (st0, inl AttributeError)
      | Some img =>
          match export_detections env args model out img_path img boxes st0 with
          | (st1, inr _) => (set_processed_images S st1, inr tt)
          | (st1, inl e) => (st1, inl e)
          end
      end
  end.
Proof.
  unfold process_image. unfold_M. cbn.
  destruct (predict model img_path _ _) as [e|boxes]; unfold_M; cbn; [done|].
  destruct (imread env img_path) as [img|]; unfold_M; cbn; [|done].
  by destruct (export_detections _ _ _ _ _ _ _ _) as [st1 [e|[]]].
Qed.

Lemma uniform_process_guarded args model out img_path :
  uniform (process_guarded env args model out img_path).
Proof.
  unfold process_guarded. uniform_step; [apply uniform_process_image|].
  apply uniform_print.
Qed.

(** *** One image, whole *)

Lemma process_image_effect args model out img_path st :
  let '(st', r) := process_image env args model out img_path st in
  r = (process_image env args model out img_path blank).2
  ∧ ledger st' = ledger st ++ rows_written env args model out img_path
  ∧ total_detections st'
    = (total_detections st + detections_counted env args model img_path)%nat
  ∧ processed_images st'
    = (processed_images st
       + if image_ok env args model out img_path then 1 else 0)%nat.
Proof.
  destruct (uniform_process_image args model out img_path st)
    as (Hr & Hl & Ht & Hp).
  destruct (process_image env args model out img_path st) as [st' r] eqn:Hst.
  cbn in Hr, Hl, Ht, Hp. split_and!; [done|done|..].
  - rewrite Ht. f_equal. unfold detections_counted.
    rewrite process_image_unfold. cbn zeta.
    destruct (predict model img_path _ _) as [e|boxes]; [done|].
    destruct (imread env img_path) as [img|]; [|by destruct boxes].
    destruct (export_detections _ _ _ _ _ _ _ _) as [st1 r1] eqn:Hexp.
    apply export_detections_inv in Hexp as (_ & _ & _ & _ & Hexp & _).
    by destruct r1 as [e|[]].
  - rewrite Hp. f_equal. unfold image_ok.
    rewrite process_image_unfold. cbn zeta.
    destruct (predict model img_path _ _) as [e|boxes]; [done|].
    destruct (imread env img_path) as [img|]; [|done].
    destruct (export_detections _ _ _ _ _ _ _ _) as [st1 r1] eqn:Hexp.
    apply export_detections_inv in Hexp as (_ & _ & _ & _ & _ & Hexp & _).
    by destruct r1 as [e|[]]; cbn; rewrite Hexp.
Qed.

Lemma image_ok_succeeds args model out img_path :
  image_ok env args model out img_path = true
  ↔ image_succeeds env args model out img_path.
Proof.
  unfold image_ok, image_succeeds. split.
  - intros Hok st.
    pose proof (process_image_effect args model out img_path st) as Heff.
    destruct (process_image env args model out img_path st) as [st' r].
    destruct Heff as [-> _]. exists st'.
    by destruct (process_image _ _ _ _ _ blank).2 as [e|[]].
  - intros Hok. destruct (Hok blank) as [st' ->]. done.
Qed.

Lemma image_ok_fails args model out img_path :
  image_ok env args model out img_path = false
  ↔ image_fails env args model out img_path.
Proof.
  unfold image_ok, image_fails. split.
  - intros Hok st.
    pose proof (process_image_effect args model out img_path st) as Heff.
    destruct (process_image env args model out img_path st) as [st' r].
    destruct Heff as [-> _]. exists st'.
    destruct (process_image _ _ _ _ _ blank).2 as [e|[]]; [eauto|done].
  - intros Hok. destruct (Hok blank) as (st' & e & ->). done.
Qed.

(** One iteration of the loop never raises. *)
Lemma process_guarded_spec args model out img_path st :
  ∃ st',
    process_guarded env args model out img_path st = (st', inr tt)
    ∧ ledger st' = ledger st ++ rows_written env args model out img_path
    ∧ total_detections st'
      = (total_detections st + detections_counted env args model img_path)%nat
    ∧ processed_images st'
      = (processed_images st
         + if image_ok env args model out img_path then 1 else 0)%nat.
Proof.
  pose proof (process_image_effect args model out img_path st) as Heff.
  unfold process_guarded, try_except.
  destruct (process_image env args model out img_path st) as [st' [e|[]]].
  - destruct Heff as (_ & Hl & Ht & Hp). eexists. split; [done|]. by cbn.
  - destruct Heff as (_ & Hl & Ht & Hp). by exists st'.
Qed.

Lemma for_each_process_guarded args model out (l : list Path) st :
  ∃ st',
    for_each l (process_guarded env args model out) st = (st', inr tt)
    ∧ ledger st'
      = ledger st ++ concat (rows_written env args model out <$> l)
    ∧ total_detections st'
      = (total_detections st
         + sum_list (detections_counted env args model <$> l))%nat
    ∧ processed_images st'
      = (processed_images st
         + length (filter (λ p, image_ok env args model out p = true) l))%nat.
Proof.
  revert st. induction l as [|p l IH]; intros st.
  - exists st. cbn. rewrite app_nil_r. auto with lia.
  - destruct (process_guarded_spec args model out p st)
      as (st1 & Hrun & Hl & Ht & Hp).
    destruct (IH st1) as (st' & Hrun' & Hl' & Ht' & Hp').
    exists st'. simpl. erewrite bind_inr by done.
    rewrite Hrun', Hl', Ht', Hp', Hl, Ht, Hp, <-(assoc_L (++)).
    split_and!; [done|done|by rewrite <-Nat.add_assoc|].
    rewrite filter_cons. destruct (image_ok env args model out p); simpl; lia.
Qed.

(** *** The batch *)

Lemma run_setup args model entries st :
  setup_ok env args model entries →
  run_yolo_inference env args st
  = process_batch env args model (resolve_output args)
      (list_images (images_folder args) entries)
      (set_stdout (λ o, o ++ [MsgLoading (weights_path args)]) st).
Proof.
  intros (HY & Hout & Hcrops & Hlabels & Hannotated & Hdir).
  unfold run_yolo_inference, mkdir, io. rewrite HY, Hout, Hdir.
  destruct (save_crops args); [rewrite Hcrops by done|];
    (destruct (save_labels args); [rewrite Hlabels by done|]);
    (destruct (save_annotated args); [rewrite Hannotated by done|]);
    reflexivity.
Qed.

Lemma process_batch_empty args model out st :
  process_batch env args model out [] st
  = (set_stdout (λ o, o ++ [MsgNoImages (images_folder args)]) st,
     inr (<["total_images" := PyInt 0]> (<["total_detections" := PyInt 0]> ∅))).
Proof. reflexivity. Qed.

Lemma process_batch_cons args model out p l st :
  let image_files := p :: l in
  let csv_path := out // "detections.csv" in
  io_error env (OpOpenW csv_path) = None →
  io_error env (OpWriterow csv_path csv_header) = None →
  ∃ st' processed total,
    process_batch env args model out image_files st
    = (st',
       inr (<["total_images" := PyInt (Z.of_nat (length image_files))]>
            (<["processed_images" := PyInt (Z.of_nat processed)]>
             (<["total_detections" := PyInt (Z.of_nat total)]>
              (<["output_folder" := PyStr (path_str out)]>
               (<["csv_path" := PyStr (path_str csv_path)]> ∅))))))
    ∧ processed
      = length (filter (λ q, image_ok env args model out q = true) image_files)
    ∧ total = sum_list (detections_counted env args model <$> image_files)
    ∧ ledger st'
      = csv_header :: concat (rows_written env args model out <$> image_files).
Proof.
  intros image_files csv_path Hopen Hheader.
  set (st0 :=
    set_ledger (λ rows, rows ++ [csv_header])
      (set_ledger (λ _, [])
         (set_processed_images (λ _, 0%nat)
            (set_total_detections (λ _, 0%nat)
               (set_stdout (λ o, o ++ [MsgFound (length image_files)]) st))))).
  destruct (for_each_process_guarded args model out image_files st0)
    as (st1 & Hloop & Hl & Ht & Hp).
  eexists _, _, _. split.
  - unfold process_batch, image_files, open_csv, writerow, io.
    fold csv_path. rewrite Hopen, Hheader.
    unfold_M. subst st0 image_files. cbn in Hloop |- *. rewrite Hloop.
    reflexivity.
  - cbn. rewrite Hl, Ht, Hp. done.
Qed.



Lemma list_images_nil images_path entries :
  (∀ e, e ∈ entries → entry_is_file e →
        lower (split_suffix (entry_name e)).2 ∉ image_extensions) →
  list_images images_path entries = [].
Proof.
  intros Hnone. unfold list_images.
  replace (filter eligible entries) with (@nil DirEntry); [done|].
  symmetry. induction entries as [|e entries IH]; [done|].
  rewrite filter_cons_False, IH; [done|..].
  - intros e' He'. apply Hnone. by right.
  - unfold eligible. intros [Hfile Hext%bool_decide_unpack]%andb_prop_elim.
    by apply (Hnone e); [left|..].
Qed.

(** *** The files of the output tree *)

Lemma crop_filename_inj img_path i j :
  crop_filename img_path i = crop_filename img_path j → i = j.
Proof.
  unfold crop_filename. intros Heq.
  do 2 apply (inj (String.app _)) in Heq.
  by apply string_app_inv_tail, format_03d_inj in Heq.
Qed.

Lemma same_file_insert q p c st : p ≠ q → same_file q st (set_files <[p:=c]> st).
Proof. intros Hne. unfold same_file. cbn. by rewrite lookup_insert_ne. Qed.

Lemma cv2_imwrite_same_file q p c :
  p ≠ q → preserves (same_file q) (cv2_imwrite env p c).
Proof.
  intros Hne. unfold cv2_imwrite. preserves_step; [preserves_step|].
  destruct a; preserves_step. by apply same_file_insert.
Qed.



Lemma save_crop_files_same_file q crops_dir img_path img boxes :
  (∀ name, crops_dir // name ≠ q) →
  preserves (same_file q) (save_crop_files env crops_dir img_path img boxes).
Proof.
  intros Hne. unfold save_crop_files. preserves_step.
  by apply cv2_imwrite_same_file.
Qed.

Lemma save_annotated_image_same_file q model annotated_dir img_path img boxes :
  (∀ name, annotated_dir // name ≠ q) →
  preserves (same_file q)
    (save_annotated_image env model annotated_dir img_path img boxes).
Proof.
  intros Hne. unfold save_annotated_image. repeat preserves_step.
  apply cv2_imwrite_same_file, Hne.
Qed.

(** The crop of the detection at position [k] is in the file that carries
    the number [k], provided [cv2.imwrite] reported that it wrote it. *)
Lemma crop_loop_lookup crops_dir img_path img boxes s st st' k box :
  for_each (enumerate s boxes)
    (λ ib, cv2_imwrite env (crops_dir // crop_filename img_path ib.1)
             (crop_of img ib.2)) st = (st', inr tt) →
  boxes !! k = Some box →
  imwrite env (crops_dir // crop_filename img_path (s + k)) (crop_of img box)
  = inr true →
  files st' !! (crops_dir // crop_filename img_path (s + k))
  = Some (crop_of img box).
Proof.
  revert s k st. induction boxes as [|b boxes IH]; intros s k st Hrun Hk Hw;
    [done|].
  simpl in Hrun. apply bind_inr_inv in Hrun as (st1 & [] & Hfirst & Hrest).
  destruct k as [|k]; simpl in Hk.
  - injection Hk as ->. rewrite Nat.add_0_r in *.
    unfold cv2_imwrite in Hfirst. rewrite Hw in Hfirst.
    injection Hfirst as <-.
    assert (preserves (same_file (crops_dir // crop_filename img_path s))
      (for_each (enumerate (S s) boxes)
         (λ ib, cv2_imwrite env (crops_dir // crop_filename img_path ib.1)
                  (crop_of img ib.2)))) as Hsame.
    { apply preserves_for_each; [apply _..|].
      intros [i b'] (j & -> & _)%elem_of_enumerate.
      apply cv2_imwrite_same_file. cbn.
      intros [_ Heq%crop_filename_inj]%path_div_inj. lia. }
    specialize (Hsame (set_files <[crops_dir // crop_filename img_path s
                                   := crop_of img box]> st)).
    rewrite Hrest in Hsame. unfold same_file in Hsame. cbn in Hsame.
    rewrite Hsame. apply lookup_insert_eq.
  - replace (s + S k)%nat with (S s + k)%nat in * by lia.
    by apply (IH (S s) k st1).
Qed.

Lemma label_loop_ok label_file img boxes st st' ls0 :
  files st !! label_file = Some (Text ls0) →
  for_each boxes
    (λ box, line ← lift_result (label_line img box);
            write_line env label_file line) st = (st', inr tt) →
  ∃ lines,
    Forall2 (λ box line, label_line img box = inr line) boxes lines
    ∧ files st' !! label_file = Some (Text (ls0 ++ lines)).
Proof.
  revert st ls0. induction boxes as [|box boxes IH]; intros st ls0 Hfile Hrun.
  - injection Hrun as <-. exists []. by rewrite app_nil_r.
  - simpl in Hrun. apply bind_inr_inv in Hrun as (st1 & [] & Hbox & Hrest).
    apply bind_inr_inv in Hbox as (st0 & line & Hline & Hwrite).
    apply lift_result_inr_inv in Hline as [Hline ->].
    apply io_inr_inv in Hwrite as [_ ->].
    apply (IH _ (ls0 ++ [line])) in Hrest as (lines & Hlines & Hfile');
      [|cbn; rewrite Hfile; apply lookup_insert_eq].
    exists (line :: lines). split; [by constructor|].
    by rewrite Hfile', <-(assoc_L (++)).
Qed.

Lemma write_label_file_ok labels_dir img_path img boxes st st' :
  write_label_file env labels_dir img_path img boxes st = (st', inr tt) →
  ∃ lines,
    Forall2 (λ box line, label_line img box = inr line) boxes lines
    ∧ files st' !! label_path labels_dir img_path = Some (Text lines).
Proof.
  unfold write_label_file.
  intros (st1 & [] & Hopen & Hloop)%bind_inr_inv.
  apply io_inr_inv in Hopen as [_ ->].
  apply (label_loop_ok _ _ _ _ _ []) in Hloop; [done|].
  cbn. apply lookup_insert_eq.
Qed.

Lemma touch_lookup p st st' :
  touch env p st = (st', inr tt) →
  files st' !! p = Some (default (Text []) (files st !! p)).
Proof.
  intros [_ ->]%io_inr_inv. cbn.
  destruct (files st !! p) as [c|] eqn:Hp; [done|]. apply lookup_insert_eq.
Qed.

(** The phases of a successful export of an image with detections. *)
Lemma export_detections_cons_inr_inv args model out img_path img box boxes
    st st' :
  export_detections env args model out img_path img (Some (box :: boxes)) st
  = (st', inr tt) →
  let bs := box :: boxes in
  ∃ sb sc sd,
    write_detection_rows env (out // "detections.csv") img_path bs
      (set_total_detections (λ n, (n + length bs)%nat) st) = (sb, inr tt)
    ∧ when (save_labels args)
        (write_label_file env (out // "labels") img_path img bs) sb
      = (sc, inr tt)
    ∧ when (save_crops args)
        (save_crop_files env (out // "crops") img_path img bs) sc
      = (sd, inr tt)
    ∧ when (save_annotated args)
        (save_annotated_image env model (out // "annotated") img_path img bs) sd
      = (st', inr tt).
Proof.
  unfold export_detections.
  intros (sa & [] & [= <-] & Hrun)%bind_inr_inv.
  apply bind_inr_inv in Hrun as (sb & [] & Hrows & Hrun).
  apply bind_inr_inv in Hrun as (sc & [] & Hlabels & Hrun).
  apply bind_inr_inv in Hrun as (sd & [] & Hcrops & Hrun).
  by exists sb, sc, sd.
Qed.

Lemma process_image_inr_inv args model out img_path st st' :
  process_image env args model out img_path st = (st', inr tt) →
  ∃ boxes img st1,
    predict model img_path (conf_threshold args) (device args) = inr boxes
    ∧ imread env img_path = Some img
    ∧ export_detections env args model out img_path img boxes
        (set_stdout (λ o, o ++ [MsgProcessing (path_name img_path)]) st)
      = (st1, inr tt)
    ∧ st' = set_processed_images S st1.
Proof.
  rewrite process_image_unfold. cbn zeta.
  destruct (predict model img_path _ _) as [e|boxes]; [done|].
  destruct (imread env img_path) as [img|]; [|done].
  destruct (export_detections _ _ _ _ _ _ _ _) as [st1 [e|[]]] eqn:Hexport;
    [done|].
  intros [= <-]. by exists boxes, img, st1.
Qed.


Lemma when_same_file q b (m : M unit) st st' r :
  preserves (same_file q) m → when b m st = (st', r) →
  files st' !! q = files st !! q.
Proof.
  intros Hm Hrun. pose proof (preserves_when (same_file q) b m Hm st) as Hp.
  by rewrite Hrun in Hp.
Qed.

Lemma crops_not_labels out (name name' : string) :
  out // "crops" // name ≠ out // "labels" // name'.
Proof. by intros [[_ [=]]%path_div_inj _]%path_div_inj. Qed.

Lemma annotated_not_labels out (name name' : string) :
  out // "annotated" // name ≠ out // "labels" // name'.
Proof. by intros [[_ [=]]%path_div_inj _]%path_div_inj. Qed.

Lemma annotated_not_crops out (name name' : string) :
  out // "annotated" // name ≠ out // "crops" // name'.
Proof. by intros [[_ [=]]%path_div_inj _]%path_div_inj. Qed.

Lemma image_rows_lookup img_path (dets : list Box) k box :
  dets !! k = Some box →
  image_rows img_path dets !! k
  = Some [CStr (path_name (path_parent img_path)); CStr (path_name img_path);
          CStr ("detection" +:+ pretty (S k)); CFloat (box_conf box)].
Proof.
  intros Hk. destruct dets as [|b dets]; [done|].
  unfold image_rows. by rewrite list_lookup_imap, Hk.
Qed.

(** *** The enumeration *)

Lemma list_images_Permutation images_path entries1 entries2 :
  entries1 ≡ₚ entries2 →
  list_images images_path entries1 = list_images images_path entries2.
Proof.
  intros Hperm. unfold list_images. f_equal.
  apply (Sorted_unique String.le).
  - apply Sorted_merge_sort, _.
  - apply Sorted_merge_sort, _.
  - rewrite !merge_sort_Permutation. by rewrite Hperm.
Qed.

Lemma path_name_div (p : Path) (s : string) : path_name (p // s) = s.
Proof. unfold path_name, path_div. apply last_last. Qed.

Lemma list_images_sorted images_path entries :
  Sorted String.le (path_name <$> list_images images_path entries).
Proof.
  unfold list_images. rewrite <-list_fmap_compose.
  erewrite list_fmap_ext; [|intros i n _; apply path_name_div].
  rewrite list_fmap_id. apply Sorted_merge_sort, _.
Qed.

Lemma run_inr_inv args st st' summary :
  run_yolo_inference env args st = (st', inr summary) →
  ∃ model entries,
    setup_ok env args model entries
    ∧ process_batch env args model (resolve_output args)
        (list_images (images_folder args) entries)
        (set_stdout (λ o, o ++ [MsgLoading (weights_path args)]) st)
      = (st', inr summary).
Proof.
  intros Hrun.
  assert (∃ model entries, setup_ok env args model entries)
    as (model & entries & Hsetup).
  { unfold run_yolo_inference, mkdir, io in Hrun. unfold setup_ok.
    unfold_M. cbn in Hrun.
    destruct (YOLO env (weights_path args)) as [e|model]; [done|].
    cbn in Hrun.
    destruct (io_error env (OpMkdir (resolve_output args))); [done|].
    cbn in Hrun.
    destruct (save_crops args), (save_labels args), (save_annotated args);
      cbn in Hrun;
      repeat (destruct (io_error env (OpMkdir _)); cbn in Hrun; [done|]);
      (destruct (iterdir env (images_folder args)) as [e|entries];
         [done|by exists model, entries]). }
  exists model, entries. split; [done|].
  by rewrite (run_setup args model entries) in Hrun.
Qed.

Lemma process_batch_again args model out image_files st st1 summary st0 :
  process_batch env args model out image_files st = (st1, inr summary) →
  ledger st0 = ledger st1 →
  ∃ st2,
    process_batch env args model out image_files st0 = (st2, inr summary)
    ∧ ledger st2 = ledger st1.
Proof.
  intros Hrun Hledger. destruct image_files as [|p l].
  - rewrite process_batch_empty in Hrun |- *. injection Hrun as <- <-.
    eexists. split; [done|]. by cbn.
  - assert (io_error env (OpOpenW (out // "detections.csv")) = None
            ∧ io_error env (OpWriterow (out // "detections.csv") csv_header)
              = None) as [Hopen Hheader].
    { unfold process_batch, open_csv, writerow, io in Hrun.
      destruct (io_error env (OpOpenW _)); [done|].
      by destruct (io_error env (OpWriterow _ csv_header)). }
    destruct (process_batch_cons args model out p l st Hopen Hheader)
      as (sa & processed & total & Ha & -> & -> & Hla).
    destruct (process_batch_cons args model out p l st0 Hopen Hheader)
      as (sb & processed & total & Hb & -> & -> & Hlb).
    rewrite Hrun in Ha. injection Ha as -> ->.
    exists sb. split; [done|congruence].
Qed.

(** *** More on what one image changes *)





Lemma process_image_stdout args model out img_path st :
  stdout (process_image env args model out img_path st).1
  = stdout st ++ [MsgProcessing (path_name img_path)].
Proof.
  rewrite process_image_unfold. cbn zeta.
  destruct (predict model img_path _ _) as [e|boxes]; [done|].
  destruct (imread env img_path) as [img|]; [|done].
  destruct (export_detections _ _ _ _ _ _ _ _) as [st1 r] eqn:Hexport.
  apply export_detections_inv in Hexport as (_ & _ & _ & _ & _ & _ & Hout).
  by destruct r as [e|[]].
Qed.

(** *** The annotated image *)

Lemma annotations_inr model boxes marks :
  annotations model boxes = inr marks →
  Forall2 (λ box mark, annotation model box = inr mark) boxes marks.
Proof.
  revert marks. induction boxes as [|box boxes IH]; intros marks; simpl.
  - intros [= <-]. constructor.
  - destruct (annotation model box) as [e|a] eqn:Ha; [done|].
    destruct (annotations model boxes) as [e|l]; [done|].
    intros [= <-]. constructor; [done|by apply IH].
Qed.

Lemma save_annotated_image_ok model annotated_dir img_path img boxes st st' :
  save_annotated_image env model annotated_dir img_path img boxes st
  = (st', inr tt) →
  ∃ marks,
    annotations model boxes = inr marks
    ∧ (imwrite env (annotated_path annotated_dir img_path) (Annotated img marks)
       = inr true →
       files st' !! annotated_path annotated_dir img_path
       = Some (Annotated img marks)).
Proof.
  unfold save_annotated_image.
  intros (st1 & marks & [Hmarks ->]%lift_result_inr_inv & Hwrite)%bind_inr_inv.
  exists marks. split; [done|]. intros Hw.
  unfold cv2_imwrite in Hwrite. rewrite Hw in Hwrite.
  injection Hwrite as <-. cbn. apply lookup_insert_eq.
Qed.

(** *** The rows of an image, written or not *)

Lemma image_rows_four_cells img_path (dets : list Box) :
  Forall (λ row : Row, length row = 4%nat) (image_rows img_path dets).
Proof.
  unfold image_rows. destruct dets as [|box dets]; [by repeat constructor|].
  apply Forall_lookup. intros i row. rewrite list_lookup_imap.
  destruct ((box :: dets) !! i); [|done]. by intros [= <-].
Qed.

Lemma rows_written_four_cells args model out img_path :
  Forall (λ row : Row, length row = 4%nat)
    (rows_written env args model out img_path).
Proof.
  unfold rows_written. rewrite process_image_unfold. cbn zeta.
  destruct (predict model img_path _ _) as [e|boxes]; [constructor|].
  destruct (imread env img_path) as [img|]; [|constructor].
  destruct (export_detections _ _ _ _ _ _ _ _) as [st1 r] eqn:Hexport.
  apply export_detections_inv in Hexport as (k & Hl & _).
  cbn in Hl.
  assert (ledger (match r with
                  | inl e => (st1, inl e)
                  | inr _ => (set_processed_images S st1, inr ())
                  end).1 = ledger st1) as -> by by destruct r as [e|[]].
  rewrite Hl. apply Forall_take, image_rows_four_cells.
Qed.

Lemma length_filter_all {A} (P : A → Prop) `{!∀ x, Decision (P x)}
    (l : list A) :
  length (filter P l) = length l ↔ Forall P l.
Proof.
  induction l as [|x l IH]; [by split; [constructor|]|].
  pose proof (length_filter P l) as Hle. rewrite Forall_cons, <-IH.
  destruct (decide (P x)).
  - rewrite filter_cons_True by done. simpl.
    split; [by intros [= ?]|by intros [_ ->]].
  - rewrite filter_cons_False by done. simpl.
    split; [lia|by intros [? _]].
Qed.

(** *** Files are never deleted *)

Lemma process_guarded_files_kept args model out img_path :
  preserves files_kept (process_guarded env args model out img_path).
Proof.
  unfold process_guarded, process_image.
  repeat preserves_step; try by intros q Hq.
  - destruct (imread env img_path); preserves_step.
  - apply export_detections_files_kept.
Qed.

Lemma process_batch_files_kept args model out image_files :
  preserves files_kept (process_batch env args model out image_files).
Proof.
  unfold process_batch, open_csv, writerow.
  destruct image_files as [|p l];
    [repeat preserves_step; by intros q Hq|].
  repeat first [apply preserves_gets; apply _
               |apply process_guarded_files_kept
               |preserves_step]; by intros q Hq.
Qed.

Lemma run_files_kept args :
  preserves files_kept (run_yolo_inference env args).
Proof.
  unfold run_yolo_inference, mkdir.
  repeat first [apply process_batch_files_kept | preserves_step];
    by intros q Hq.
Qed.

End Exporter.

Section TwoRuns.
Context `{FO : FloatOps}.

(** The batch only uses the image and file capabilities of the environment. *)
Lemma process_batch_same_env (env1 env2 : Env) :
  imread env2 = imread env1 → imwrite env2 = imwrite env1 →
  io_error env2 = io_error env1 →
  process_batch env2 = process_batch env1.
Proof. destruct env1, env2. cbn. by intros -> -> ->. Qed.

Lemma setup_ok_same_env (env1 env2 : Env) args model entries1 entries2 :
  YOLO env2 = YOLO env1 → io_error env2 = io_error env1 →
  iterdir env2 (images_folder args) = inr entries2 →
  setup_ok env1 args model entries1 → setup_ok env2 args model entries2.
Proof.
  intros HY Hio Hdir (? & ? & ? & ? & ? & _). unfold setup_ok.
  by rewrite HY, Hio.
Qed.

End TwoRuns.

(** * The claims of the specification *)

Section Claims.
Context `{FO : FloatOps} (env : Env).

(** C1. For every successfully processed image the ledger receives either
    exactly one row per detection, labelled "detection{i}" with [i] the
    1-based position of the detection in the order of the detector and
    carrying the confidence of that detection, or, when there is no
    detection, exactly one sentinel row labelled "no-detection" with an
    empty confidence; never both kinds of row, never no row. *)
Theorem ledger_rows_of_processed_image args model out img_path st st' :
  process_image env args model out img_path st = (st', inr tt) →
  let dossier := CStr (path_name (path_parent img_path)) in
  let image := CStr (path_name img_path) in
  ∃ dets rows,
    detections args model img_path = inr dets
    ∧ ledger st' = ledger st ++ rows
    ∧ (dets = [] → rows = [[dossier; image; CStr "no-detection"; CStr ""]])
    ∧ (dets ≠ [] →
       length rows = length dets
       ∧ ∀ k box, dets !! k = Some box →
           rows !! k
           = Some [dossier; image; CStr ("detection" +:+ pretty (S k));
                   CFloat (box_conf box)]).
Proof.
  intros Hrun dossier image. rewrite process_image_unfold in Hrun.
  cbn zeta in Hrun. unfold detections.
  destruct (predict model img_path _ _) as [e|boxes]; [done|].
  destruct (imread env img_path) as [img|]; [|done].
  destruct (export_detections _ _ _ _ _ _ _ _) as [st1 [e|[]]] eqn:Hexport;
    [done|].
  injection Hrun as <-.
  apply export_detections_inv in Hexport as (k & Hl & Hk & _).
  rewrite (Hk eq_refl), firstn_all in Hl. cbn in Hl.
  exists (default [] boxes), (image_rows img_path (default [] boxes)).
  split_and!; [done|done|by intros ->|].
  intros Hdets. unfold image_rows.
  destruct (default [] boxes) as [|box dets] eqn:Hboxes; [done|].
  split; [by rewrite length_imap|].
  intros i b Hb. by rewrite list_lookup_imap, Hb.
Qed.


(** C3. When the folder holds no file whose extension, compared without
    regard to case, is one of jpg, jpeg, png, bmp, tiff and tif, the run
    returns normally, and the dictionary it returns holds two counters at
    zero, images found and detections.  The counter of processed images,
    the output folder and the ledger path, which the summary of any other
    run carries, are absent from it. *)
Theorem summary_of_a_run_without_images args model entries st :
  setup_ok env args model entries →
  (∀ e, e ∈ entries → entry_is_file e →
        lower (split_suffix (entry_name e)).2 ∉ image_extensions) →
  ∃ st' summary,
    run_yolo_inference env args st = (st', inr summary)
    ∧ summary !! "total_images" = Some (PyInt 0)
    ∧ summary !! "total_detections" = Some (PyInt 0)
    ∧ summary !! "processed_images" = None
    ∧ summary !! "output_folder" = None
    ∧ summary !! "csv_path" = None.
Proof.
  intros Hsetup Hnone.
  rewrite (run_setup env args model entries) by done.
  rewrite list_images_nil, process_batch_empty by done.
  eexists _, _. split; [done|]. by vm_compute.
Qed.


(** C10. The counter of detections is increased by the number of
    detections of an image as soon as the detector has answered and the
    image is decoded, before any row or artifact is written: whatever the
    outcome of the export, the counter has grown by that number, and the
    counter of processed images has not grown when the export raised.  The
    summary of the run therefore counts the detections of an image whose
    artifact write failed, while its count of processed images leaves that
    image out. *)
Theorem detections_counted_before_artifacts args model entries st :
  let out := resolve_output args in
  let image_files := list_images (images_folder args) entries in
  setup_ok env args model entries →
  ledger_ok env args →
  image_files ≠ [] →
  (∀ img_path boxes img st0 st1 r,
     predict model img_path (conf_threshold args) (device args)
     = inr (Some boxes) →
     imread env img_path = Some img →
     process_image env args model out img_path st0 = (st1, r) →
     detections_counted env args model img_path = length boxes
     ∧ total_detections st1 = (total_detections st0 + length boxes)%nat
     ∧ (r ≠ inr tt →
        processed_images st1 = processed_images st0
        ∧ image_ok env args model out img_path = false))
  ∧ ∃ st' summary,
      run_yolo_inference env args st = (st', inr summary)
      ∧ summary !! "total_detections"
        = Some (PyInt (Z.of_nat
            (sum_list (detections_counted env args model <$> image_files))))
      ∧ summary !! "processed_images"
        = Some (PyInt (Z.of_nat
            (length (filter (λ q, image_ok env args model out q = true)
                       image_files)))).
Proof.
  intros out image_files Hsetup [Hopen Hheader] Himages. split.
  - intros img_path boxes img st0 st1 r Hpredict Hread Hrun.
    pose proof (process_image_effect env args model out img_path st0) as Heff.
    rewrite Hrun in Heff. destruct Heff as (Hr & _ & Ht & Hp).
    assert (detections_counted env args model img_path = length boxes) as Hn.
    { unfold detections_counted. by rewrite Hpredict, Hread. }
    rewrite Hn in Ht. split_and!; [done|done|].
    intros Hfail.
    assert (image_ok env args model out img_path = false) as Hok.
    { unfold image_ok. rewrite <-Hr. by destruct r as [e|[]]. }
    rewrite Hok in Hp. split; [lia|done].
  - rewrite (run_setup env args model entries) by done.
    fold out image_files.
    destruct image_files as [|p l] eqn:Heq; [done|].
    destruct (process_batch_cons env args model out p l
      (set_stdout (λ o, o ++ [MsgLoading (weights_path args)]) st) Hopen Hheader)
      as (st' & processed & total & -> & -> & -> & _).
    exists st'. eexists. split_and!; [done|..].
    + by rewrite !lookup_insert_ne, lookup_insert_eq by done.
    + by rewrite lookup_insert_ne, lookup_insert_eq by done.
Qed.


(** C5. With label saving enabled, after an image with detections has been
    processed its label file holds exactly one line per detection, in order,
    each line being [class_id center_x center_y width height] with
    center_x = ((x1+x2)/2)/W, center_y = ((y1+y2)/2)/H, width = (x2-x1)/W and
    height = (y2-y1)/H, every value printed with six decimals.  After an
    image without detection has been processed its label file exists: it is
    empty when it did not exist before, and otherwise holds what it held
    before, since [touch] does not truncate. *)
Theorem label_file_of_processed_image args model out img_path st st' :
  save_labels args = true →
  process_image env args model out img_path st = (st', inr tt) →
  let label_file := out // "labels" // (path_stem img_path +:+ ".txt") in
  ∃ dets img,
    detections args model img_path = inr dets
    ∧ imread env img_path = Some img
    ∧ (dets ≠ [] →
       ∃ lines,
         files st' !! label_file = Some (Text lines)
         ∧ Forall2 (λ box line,
             let '(x1, y1, x2, y2) := box_xyxy box in
             let W := float_of_int (Z.pos (img_width img)) in
             let H := float_of_int (Z.pos (img_height img)) in
             let two := float_of_int 2 in
             ∃ class_id,
               int_of_float (box_cls box) = Some class_id
               ∧ line
                 = pretty class_id
                   +:+ " " +:+ format_f 6 (fdiv (fdiv (fadd x1 x2) two) W)
                   +:+ " " +:+ format_f 6 (fdiv (fdiv (fadd y1 y2) two) H)
                   +:+ " " +:+ format_f 6 (fdiv (fsub x2 x1) W)
                   +:+ " " +:+ format_f 6 (fdiv (fsub y2 y1) H))
             dets lines)
    ∧ (dets = [] →
       files st' !! label_file
       = Some (default (Text []) (files st !! label_file))).
Proof.
  intros Hlabels Hrun label_file.
  apply process_image_inr_inv in Hrun
    as (boxes & img & st1 & Hpredict & Hread & Hexport & ->).
  exists (default [] boxes), img. unfold detections. rewrite Hpredict.
  split_and!; [done|done|..].
  - intros Hdets. destruct boxes as [[|box boxes]|]; [done| |done].
    apply export_detections_cons_inr_inv in Hexport
      as (sb & sc & sd & _ & Hwrite & Hcrops & Hannotated).
    rewrite Hlabels in Hwrite. apply write_label_file_ok in Hwrite
      as (lines & Hlines & Hfile).
    exists lines. split.
    + apply (when_same_file label_file) in Hcrops;
        [|apply save_crop_files_same_file; intros name; apply crops_not_labels].
      apply (when_same_file label_file) in Hannotated;
        [|apply save_annotated_image_same_file; intros name;
          apply annotated_not_labels].
      cbn. by rewrite Hannotated, Hcrops.
    + eapply Forall2_impl; [exact Hlines|].
      intros b line. unfold label_line, class_id, format_label, yolo_box.
      destruct (box_xyxy b) as [[[x1 y1] x2] y2].
      destruct (int_of_float (box_cls b)) as [cls|]; [|done].
      intros [= <-]. by exists cls.
  - intros Hdets.
    assert (export_detections env args model out img_path img boxes
      = (writerow env (out // "detections.csv") (no_detection_row img_path);;
         when (save_labels args)
           (touch env (label_path (out // "labels") img_path)))) as Heq.
    { by destruct boxes as [[|box boxes]|]. }
    rewrite Heq, Hlabels in Hexport.
    apply bind_inr_inv in Hexport as (sa & [] & Hrow & Htouch).
    apply io_inr_inv in Hrow as [_ ->].
    apply touch_lookup in Htouch. unfold label_path in Htouch.
    cbn in Htouch |- *. exact Htouch.
Qed.

(** C8. With crop saving enabled, the crop of the detection at position [k],
    counted from zero, of a processed image is written to the file
    [<stem>_crop_<k on three digits, zero padded>.jpg] of the crops folder
    (it is in that file whenever [cv2.imwrite] reported having written it),
    while the ledger row of the same detection is labelled
    "detection{k+1}". *)
Theorem crop_file_of_detection args model out img_path boxes img k box
    st st' :
  save_crops args = true →
  predict model img_path (conf_threshold args) (device args)
  = inr (Some boxes) →
  imread env img_path = Some img →
  boxes !! k = Some box →
  process_image env args model out img_path st = (st', inr tt) →
  let crop_file :=
    out // "crops"
        // (path_stem img_path +:+ "_crop_" +:+ zfill 3 (pretty k) +:+ ".jpg") in
  imwrite env crop_file (crop_of img box) = inr true →
  files st' !! crop_file = Some (crop_of img box)
  ∧ ledger st' !! (length (ledger st) + k)%nat
    = Some [CStr (path_name (path_parent img_path)); CStr (path_name img_path);
            CStr ("detection" +:+ pretty (S k)); CFloat (box_conf box)].
Proof.
  intros Hcrops Hpredict Hread Hk Hrun crop_file Hwritten.
  apply process_image_inr_inv in Hrun
    as (boxes' & img' & st1 & Hpredict' & Hread' & Hexport & ->).
  rewrite Hpredict in Hpredict'. rewrite Hread in Hread'.
  injection Hpredict' as <-. injection Hread' as <-.
  destruct boxes as [|b bs]; [done|]. split.
  - apply export_detections_cons_inr_inv in Hexport
      as (sb & sc & sd & _ & _ & Hsave & Hannotated).
    rewrite Hcrops in Hsave. unfold when, save_crop_files in Hsave.
    apply (crop_loop_lookup env _ _ _ _ 0 _ _ k box) in Hsave; [|done..].
    apply (when_same_file crop_file) in Hannotated;
      [|apply save_annotated_image_same_file; intros name;
        apply annotated_not_crops].
    cbn. by rewrite Hannotated.
  - apply export_detections_inv in Hexport as (n & Hl & Hn & _).
    rewrite (Hn eq_refl), firstn_all in Hl.
    change (ledger (set_processed_images S st1)) with (ledger st1).
    rewrite Hl. cbn [ledger set_stdout]. rewrite lookup_app_r by lia.
    replace (length (ledger st) + k - length (ledger st))%nat with k by lia.
    by apply image_rows_lookup.
Qed.

End Claims.

(** * Further properties of the script *)

Section Extras.
Context `{FO : FloatOps} (env : Env).

(** X1. An image on which the detector raises, or that [cv2.imread] cannot
    decode, leaves no trace but two messages: no row in the ledger, no file,
    no detection counted (even when the detector found some on the
    undecodable image) and the image is not counted as processed.  The
    detector is called before the image is decoded, so its error wins. *)
Theorem failed_detection_or_decoding_leaves_no_trace args model out img_path
    st :
  (∃ e, predict model img_path (conf_threshold args) (device args) = inl e)
  ∨ imread env img_path = None →
  ∃ st' e,
    process_guarded env args model out img_path st = (st', inr tt)
    ∧ match predict model img_path (conf_threshold args) (device args) with
      | inl e' => e = e'
      | inr _ => e = AttributeError
      end
    ∧ stdout st'
      = stdout st ++ [MsgProcessing (path_name img_path);
                      MsgError (path_name img_path) e]
    ∧ ledger st' = ledger st
    ∧ files st' = files st
    ∧ total_detections st' = total_detections st
    ∧ processed_images st' = processed_images st.
Proof.
  intros Hfail. unfold process_guarded, try_except.
  rewrite process_image_unfold. cbn zeta.
  destruct (predict model img_path _ _) as [e|boxes].
  - eexists _, e. split_and!; try done. cbn. by rewrite <-(assoc_L (++)).
  - destruct Hfail as [[e [=]]| ->].
    eexists _, AttributeError. split_and!; try done.
    cbn. by rewrite <-(assoc_L (++)).
Qed.

(** X2. One iteration of the loop prints "Processing: <name>" first and,
    exactly when the processing of the image raised, "Error processing
    <name>: <error>" after it; nothing else is printed. *)
Theorem messages_of_one_image args model out img_path st :
  ∃ st',
    process_guarded env args model out img_path st = (st', inr tt)
    ∧ stdout st'
      = stdout st
        ++ MsgProcessing (path_name img_path)
           :: match (process_image env args model out img_path st).2 with
              | inl e => [MsgError (path_name img_path) e]
              | inr _ => []
              end.
Proof.
  pose proof (process_image_stdout env args model out img_path st) as Hout.
  unfold process_guarded, try_except.
  destruct (process_image env args model out img_path st) as [st1 [e|[]]];
    cbn in Hout |- *.
  - eexists. split; [done|]. cbn. by rewrite Hout, <-(assoc_L (++)).
  - by exists st1.
Qed.



(** X5. With annotated images enabled, the annotated image of a processed
    image with detections is written to [<stem>_annotated<suffix>], the
    suffix being that of the source image, and carries one rectangle and one
    text per detection, in order: the rectangle at the truncated box, the
    text ["<class name>: <confidence with two decimals>"], the class name
    being looked up in [model.names], or the class number when
    [model.names] is empty. *)
Theorem annotated_image_of_processed_image args model out img_path boxes img
    st st' :
  save_annotated args = true →
  predict model img_path (conf_threshold args) (device args)
  = inr (Some boxes) →
  boxes ≠ [] →
  imread env img_path = Some img →
  process_image env args model out img_path st = (st', inr tt) →
  let file :=
    out // "annotated"
        // (path_stem img_path +:+ "_annotated" +:+ path_suffix img_path) in
  ∃ marks,
    Forall2 (λ box mark,
        let '(x1, y1, x2, y2) := box_xyxy box in
        ∃ cls class_name,
          int_of_float (box_cls box) = Some cls
          ∧ (if bool_decide (names model = ∅) then class_name = pretty cls
             else names model !! cls = Some class_name)
          ∧ mark = (tensor_int x1, tensor_int y1, tensor_int x2, tensor_int y2,
                    class_name +:+ ": " +:+ format_f 2 (box_conf box)))
      boxes marks
    ∧ (imwrite env file (Annotated img marks) = inr true →
       files st' !! file = Some (Annotated img marks)).
Proof.
  intros Hflag Hpredict Hboxes Hread Hrun file.
  apply process_image_inr_inv in Hrun
    as (boxes' & img' & st1 & Hpredict' & Hread' & Hexport & ->).
  rewrite Hpredict in Hpredict'. rewrite Hread in Hread'.
  injection Hpredict' as <-. injection Hread' as <-.
  destruct boxes as [|b bs]; [done|].
  apply export_detections_cons_inr_inv in Hexport
    as (sb & sc & sd & _ & _ & _ & Hannotated).
  rewrite Hflag in Hannotated.
  apply save_annotated_image_ok in Hannotated as (marks & Hmarks & Hfile).
  exists marks. split; [|done].
  apply annotations_inr in Hmarks.
  eapply Forall2_impl; [exact Hmarks|]. intros box mark.
  unfold annotation, int_box, class_id.
  destruct (box_xyxy box) as [[[x1 y1] x2] y2].
  destruct (int_of_float (box_cls box)) as [cls|]; [|done].
  case_bool_decide.
  - intros [= <-]. by exists cls, (pretty cls).
  - destruct (names model !! cls) as [name|] eqn:Hname; [|done].
    intros [= <-]. by exists cls, name.
Qed.

(** X6. With annotated images enabled, an image one of whose detections has
    a class that a non-empty [model.names] does not list is never processed
    successfully: the lookup raises [KeyError] (unless something failed
    before), after the rows, the label file and the crops were written. *)
Theorem unnamed_class_fails_the_image args model out img_path boxes img k box
    cls :
  save_annotated args = true →
  predict model img_path (conf_threshold args) (device args)
  = inr (Some boxes) →
  imread env img_path = Some img →
  boxes !! k = Some box →
  int_of_float (box_cls box) = Some cls →
  names model ≠ ∅ →
  names model !! cls = None →
  image_fails env args model out img_path.
Proof.
  intros Hflag Hpredict Hread Hk Hcls Hnames Hname.
  apply image_ok_fails. apply not_true_is_false.
  intros Hok%image_ok_succeeds. destruct (Hok blank) as [st' Hrun].
  apply process_image_inr_inv in Hrun
    as (boxes' & img' & st1 & Hpredict' & Hread' & Hexport & ->).
  rewrite Hpredict in Hpredict'. injection Hpredict' as <-.
  destruct boxes as [|b bs]; [done|].
  apply export_detections_cons_inr_inv in Hexport
    as (sb & sc & sd & _ & _ & _ & Hannotated).
  rewrite Hflag in Hannotated.
  apply save_annotated_image_ok in Hannotated as (marks & Hmarks & _).
  apply annotations_inr in Hmarks.
  destruct (Forall2_lookup_l _ _ _ _ _ Hmarks Hk) as (mark & _ & Hmark).
  unfold annotation, class_id in Hmark. rewrite Hcls in Hmark.
  destruct (int_box box) as [[[x1 y1] x2] y2].
  rewrite bool_decide_eq_false_2, Hname in Hmark by done. done.
Qed.

(** X7. After a run over at least one image, every row of the ledger has
    exactly four cells, as the header has, whether the images were processed
    or failed part of the way. *)
Theorem every_ledger_row_has_four_cells args model entries st :
  setup_ok env args model entries →
  ledger_ok env args →
  list_images (images_folder args) entries ≠ [] →
  ∃ st' summary,
    run_yolo_inference env args st = (st', inr summary)
    ∧ Forall (λ row : Row, length row = 4%nat) (ledger st').
Proof.
  intros Hsetup [Hopen Hheader] Himages.
  rewrite (run_setup env args model entries) by done.
  destruct (list_images (images_folder args) entries) as [|p l]; [done|].
  destruct (process_batch_cons env args model (resolve_output args) p l
    (set_stdout (λ o, o ++ [MsgLoading (weights_path args)]) st) Hopen Hheader)
    as (st' & processed & total & -> & _ & _ & Hl).
  eexists _, _. split; [done|]. rewrite Hl. constructor; [done|].
  apply Forall_concat, Forall_fmap, Forall_forall. intros q _.
  apply rows_written_four_cells.
Qed.

(** X8. The summary never reports more processed images than images found,
    and reports as many exactly when the processing of every image
    succeeded. *)
Theorem processed_images_at_most_total args model entries st :
  let out := resolve_output args in
  let image_files := list_images (images_folder args) entries in
  setup_ok env args model entries →
  ledger_ok env args →
  image_files ≠ [] →
  ∃ st' summary processed,
    run_yolo_inference env args st = (st', inr summary)
    ∧ summary !! "total_images" = Some (PyInt (Z.of_nat (length image_files)))
    ∧ summary !! "processed_images" = Some (PyInt (Z.of_nat processed))
    ∧ (processed ≤ length image_files)%nat
    ∧ (processed = length image_files
       ↔ ∀ p, p ∈ image_files → image_succeeds env args model out p).
Proof.
  intros out image_files Hsetup [Hopen Hheader] Himages.
  rewrite (run_setup env args model entries) by done.
  fold out image_files.
  destruct image_files as [|p l] eqn:Heq; [done|].
  destruct (process_batch_cons env args model out p l
    (set_stdout (λ o, o ++ [MsgLoading (weights_path args)]) st) Hopen Hheader)
    as (st' & processed & total & -> & -> & _ & _).
  eexists _, _, _. split; [done|]. split; [done|]. split.
  { by rewrite lookup_insert_ne, lookup_insert_eq by done. }
  split; [apply length_filter|].
  rewrite length_filter_all, Forall_forall.
  by setoid_rewrite image_ok_succeeds.
Qed.

(** X9. A run never deletes a file of the output tree: whatever its
    outcome, every file that existed before it still exists after it. *)
Theorem run_never_deletes_a_file args st q :
  is_Some (files st !! q) →
  is_Some (files (run_yolo_inference env args st).1 !! q).
Proof. apply (run_files_kept env args st). Qed.

(** X10. The images of a run are exactly the entries of the folder that are
    files and whose suffix, in lower case, is one of the six extensions:
    none is lost and none is repeated, and they come sorted by name. *)
Theorem enumeration_is_the_sorted_eligible_entries images_path entries :
  list_images images_path entries
  ≡ₚ (λ e, images_path // entry_name e)
     <$> filter (λ e, entry_is_file e = true
                      ∧ lower (split_suffix (entry_name e)).2
                        ∈ [".jpg"; ".jpeg"; ".png"; ".bmp"; ".tiff"; ".tif"])
           entries
  ∧ Sorted String.le (path_name <$> list_images images_path entries).
Proof.
  split; [|apply list_images_sorted].
  unfold list_images. rewrite merge_sort_Permutation, <-list_fmap_compose.
  erewrite (list_filter_iff (λ e, eligible e)); [done|].
  intros e. unfold eligible, image_extensions.
  rewrite andb_True, bool_decide_spec, Is_true_true. done.
Qed.


(** X12. An error of the setup (loading the model, creating the output
    folder or the folder of an enabled flag, listing the images folder)
    escapes [run_yolo_inference]: the run raises it, having printed one
    message and changed neither the ledger nor any file. *)
Theorem setup_error_escapes args st e :
  setup_error env args = Some e →
  ∃ st',
    run_yolo_inference env args st = (st', inl e)
    ∧ stdout st' = stdout st ++ [MsgLoading (weights_path args)]
    ∧ ledger st' = ledger st
    ∧ files st' = files st.
Proof.
  unfold setup_error, run_yolo_inference, mkdir, io. unfold_M. cbn.
  destruct (YOLO env (weights_path args)) as [e'|model]; cbn.
  { intros [= <-]. by eexists. }
  destruct (io_error env (OpMkdir (resolve_output args))) as [e'|]; cbn.
  { intros [= <-]. by eexists. }
  destruct (save_crops args), (save_labels args), (save_annotated args); cbn;
    repeat (destruct (io_error env (OpMkdir _)) as [e'|]; cbn;
            [intros [= <-]; by eexists|]);
    (destruct (iterdir env (images_folder args)) as [e'|entries]; cbn;
     [intros [= <-]; by eexists|done]).
Qed.

(** X13. With a deterministic detector and an unchanged input folder, a
    second run with the same arguments, started from the state that the
    first run left, returns the same summary and leaves a ledger identical
    to the one the first run left: the same rows in the same order.  The
    order in which the folder lists its entries does not matter, since both
    runs enumerate the images sorted by name. *)
Theorem second_run_gives_the_same_ledger (env2 : Env) args entries entries2
    st st1 summary :
  YOLO env2 = YOLO env → imread env2 = imread env →
  imwrite env2 = imwrite env → io_error env2 = io_error env →
  iterdir env (images_folder args) = inr entries →
  iterdir env2 (images_folder args) = inr entries2 →
  entries2 ≡ₚ entries →
  run_yolo_inference env args st = (st1, inr summary) →
  list_images (images_folder args) entries2
  = list_images (images_folder args) entries
  ∧ Sorted String.le (path_name <$> list_images (images_folder args) entries)
  ∧ ∃ st2,
      run_yolo_inference env2 args st1 = (st2, inr summary)
      ∧ ledger st2 = ledger st1.
Proof.
  intros HY Hread Hwrite Hio Hdir Hdir2 Hperm Hrun.
  assert (list_images (images_folder args) entries2
          = list_images (images_folder args) entries) as Himages
    by by apply list_images_Permutation.
  split_and!; [done|apply list_images_sorted|].
  apply run_inr_inv in Hrun as (model & entries' & Hsetup & Hbatch).
  assert (entries' = entries) as ->.
  { destruct Hsetup as (_ & _ & _ & _ & _ & Hdir'). congruence. }
  rewrite (run_setup env2 args model entries2)
    by by eapply setup_ok_same_env.
  rewrite Himages, (process_batch_same_env env env2) by done.
  by eapply process_batch_again.
Qed.

(** X14. The name of an enumerated image is a stem that is not empty
    followed by one of the six extensions in any case: a file named after
    an extension alone, such as [.jpg], is not an image of the run.  The
    stem is what names the label file and the crops. *)
Theorem enumerated_name_is_stem_and_extension images_path entries img_path :
  img_path ∈ list_images images_path entries →
  ∃ stem ext,
    path_name img_path = stem +:+ ext
    ∧ stem ≠ ""
    ∧ lower ext ∈ [".jpg"; ".jpeg"; ".png"; ".bmp"; ".tiff"; ".tif"]
    ∧ path_stem img_path = stem
    ∧ path_suffix img_path = ext.
Proof.
  unfold list_images. rewrite list_elem_of_fmap.
  intros (name & -> & Hname). rewrite merge_sort_Permutation in Hname.
  apply list_elem_of_fmap in Hname as (e & -> & He).
  apply list_elem_of_filter in He as [He _].
  unfold eligible in He. apply andb_prop_elim in He as [_ Hext].
  apply bool_decide_unpack in Hext.
  unfold path_stem, path_suffix. rewrite path_name_div.
  destruct (split_suffix_spec (entry_name e)) as [Hsplit Hstem].
  exists (split_suffix (entry_name e)).1, (split_suffix (entry_name e)).2.
  split_and!; try done. apply Hstem. intros Hempty.
  rewrite Hempty in Hext. by repeat apply elem_of_cons in Hext as [?|Hext];
    try apply elem_of_nil in Hext.
Qed.

(** X15. With label saving enabled, the label file of a processed image
    with detections has as many lines as the image has rows in the ledger,
    one of each per detection. *)
Theorem label_lines_match_ledger_rows args model out img_path boxes st st' :
  save_labels args = true →
  predict model img_path (conf_threshold args) (device args)
  = inr (Some boxes) →
  boxes ≠ [] →
  process_image env args model out img_path st = (st', inr tt) →
  ∃ lines rows,
    files st' !! (out // "labels" // (path_stem img_path +:+ ".txt"))
    = Some (Text lines)
    ∧ ledger st' = ledger st ++ rows
    ∧ length lines = length boxes
    ∧ length rows = length boxes.
Proof.
  intros Hflag Hpredict Hboxes Hrun.
  apply process_image_inr_inv in Hrun
    as (boxes' & img & st1 & Hpredict' & Hread & Hexport & ->).
  rewrite Hpredict in Hpredict'. injection Hpredict' as <-.
  destruct boxes as [|b bs]; [done|].
  pose proof Hexport as Hrows.
  apply export_detections_inv in Hrows as (n & Hl & Hn & _).
  rewrite (Hn eq_refl), firstn_all in Hl.
  apply export_detections_cons_inr_inv in Hexport
    as (sb & sc & sd & _ & Hwrite & Hcrops & Hannotated).
  rewrite Hflag in Hwrite.
  apply write_label_file_ok in Hwrite as (lines & Hlines & Hfile).
  apply (when_same_file (label_path (out // "labels") img_path)) in Hcrops;
    [|apply save_crop_files_same_file; intros name; apply crops_not_labels].
  apply (when_same_file (label_path (out // "labels") img_path)) in Hannotated;
    [|apply save_annotated_image_same_file; intros name;
      apply annotated_not_labels].
  exists lines, (image_rows img_path (b :: bs)). split_and!.
  - unfold label_path in *. cbn. by rewrite Hannotated, Hcrops.
  - done.
  - symmetry. by eapply Forall2_length.
  - unfold image_rows. by rewrite length_imap.
Qed.

End Extras.

Import Example.

Lemma ledger_rows_of_processed_image_witness :
  let env := env entries imwrite_ok no_fault in
  let args := args true true true in
  let st' := (process_image env args model results a_jpg stale).1 in
  ∃ dets rows,
    detections args model a_jpg = inr dets
    ∧ ledger st' = ledger stale ++ rows
    ∧ (dets = [] →
       rows = [[CStr "photos"; CStr "a.jpg"; CStr "no-detection"; CStr ""]])
    ∧ (dets ≠ [] →
       length rows = length dets
       ∧ ∀ k box, dets !! k = Some box →
           rows !! k
           = Some [CStr "photos"; CStr "a.jpg";
                   CStr ("detection" +:+ pretty (S k)); CFloat (box_conf box)]).
Proof.
  intros env args st'.
  apply (ledger_rows_of_processed_image env args model results a_jpg stale st').
  reflexivity.
Defined.


Lemma summary_of_a_run_without_images_witness :
  let dir := [ {| entry_name := "notes.txt"; entry_is_file := true |};
               {| entry_name := "old.jpg"; entry_is_file := false |} ] in
  ∃ st' summary,
    run_yolo_inference (env dir imwrite_ok no_fault) (args true true true) stale
    = (st', inr summary)
    ∧ summary !! "total_images" = Some (PyInt 0)
    ∧ summary !! "total_detections" = Some (PyInt 0)
    ∧ summary !! "processed_images" = None
    ∧ summary !! "output_folder" = None
    ∧ summary !! "csv_path" = None.
Proof.
  intros dir.
  apply (summary_of_a_run_without_images _ _ model dir).
  - repeat split; reflexivity.
  - intros e He Hfile. repeat (apply elem_of_cons in He as [->|He]).
    + apply (bool_decide_unpack _). by vm_compute.
    + done.
    + by apply elem_of_nil in He.
Defined.



Lemma detections_counted_before_artifacts_witness :
  let env := env entries imwrite_crop_error no_fault in
  let args := args true true true in
  (∀ img_path boxes img st0 st1 r,
     predict model img_path (conf_threshold args) (device args)
     = inr (Some boxes) →
     imread env img_path = Some img →
     process_image env args model results img_path st0 = (st1, r) →
     detections_counted env args model img_path = length boxes
     ∧ total_detections st1 = (total_detections st0 + length boxes)%nat
     ∧ (r ≠ inr tt →
        processed_images st1 = processed_images st0
        ∧ image_ok env args model results img_path = false))
  ∧ ∃ st' summary,
      run_yolo_inference env args stale = (st', inr summary)
      ∧ summary !! "total_detections" = Some (PyInt 2)
      ∧ summary !! "processed_images" = Some (PyInt 1).
Proof.
  intros env args.
  apply (detections_counted_before_artifacts env args model entries stale).
  - repeat split; reflexivity.
  - split; reflexivity.
  - by vm_compute.
Defined.


(** What the failed export of [a.jpg] leaves behind: both rows, the label
    file and the first crop. *)
Example failed_export_leaves_artifacts :
  let env := env entries imwrite_crop_error no_fault in
  let st1 := (process_guarded env (args true true true) model results a_jpg
                blank).1 in
  ledger st1 = image_rows a_jpg [box1; box2]
  ∧ files st1 !! (results // "labels" // "a.txt")
    = Some (Text ["0 0.150000 0.350000 0.200000 0.500000";
                  "1 0.301250 0.551250 0.397500 0.502500"])
  ∧ files st1 !! (results // "crops" // "a_crop_000.jpg")
    = Some (Crop image 10 60 10 50)
  ∧ files st1 !! (results // "crops" // "a_crop_001.jpg") = None
  ∧ processed_images st1 = 0%nat
  ∧ total_detections st1 = 2%nat.
Proof. repeat split; reflexivity. Qed.

Lemma label_file_of_processed_image_witness :
  let env := env entries imwrite_ok no_fault in
  let args := args true true true in
  let st' := (process_image env args model results b_png stale).1 in
  let label_file := results // "labels" // "b.txt" in
  ∃ dets img,
    detections args model b_png = inr dets
    ∧ imread env b_png = Some img
    ∧ (dets ≠ [] →
       ∃ lines,
         files st' !! label_file = Some (Text lines)
         ∧ Forall2 (λ box line,
             let '(x1, y1, x2, y2) := box_xyxy box in
             let W := float_of_int (Z.pos (img_width img)) in
             let H := float_of_int (Z.pos (img_height img)) in
             let two := float_of_int 2 in
             ∃ class_id,
               int_of_float (box_cls box) = Some class_id
               ∧ line
                 = pretty class_id
                   +:+ " " +:+ format_f 6 (fdiv (fdiv (fadd x1 x2) two) W)
                   +:+ " " +:+ format_f 6 (fdiv (fdiv (fadd y1 y2) two) H)
                   +:+ " " +:+ format_f 6 (fdiv (fsub x2 x1) W)
                   +:+ " " +:+ format_f 6 (fdiv (fsub y2 y1) H))
             dets lines)
    ∧ (dets = [] →
       files st' !! label_file = Some (Text ["0 0.5 0.5 0.1 0.1"])).
Proof.
  intros env args st' label_file.
  apply (label_file_of_processed_image env args model results b_png stale st').
  - reflexivity.
  - reflexivity.
Defined.

Lemma crop_file_of_detection_witness :
  let env := env entries imwrite_ok no_fault in
  let args := args true true true in
  let st' := (process_image env args model results a_jpg stale).1 in
  files st' !! (results // "crops" // "a_crop_001.jpg")
  = Some (Crop image 30 80 20 100)
  ∧ ledger st' !! 2%nat
    = Some [CStr "photos"; CStr "a.jpg"; CStr "detection2";
            CFloat (box_conf box2)].
Proof.
  intros env args st'.
  apply (crop_file_of_detection env args model results a_jpg [box1; box2]
           image 1 box2 stale st'); reflexivity.
Defined.

Lemma second_run_gives_the_same_ledger_witness :
  let env1 := env entries imwrite_ok no_fault in
  let env2 := env (reverse entries) imwrite_ok no_fault in
  let args := args true true true in
  let first_run := run_yolo_inference env1 args stale in
  let summary := match first_run.2 with inr d => d | inl _ => ∅ end in
  list_images photos (reverse entries) = list_images photos entries
  ∧ Sorted String.le (path_name <$> list_images photos entries)
  ∧ ∃ st2,
      run_yolo_inference env2 args first_run.1 = (st2, inr summary)
      ∧ ledger st2 = ledger first_run.1.
Proof.
  intros env1 env2 args first_run summary.
  apply (second_run_gives_the_same_ledger env1 env2 args entries
           (reverse entries) stale first_run.1 summary).
  - reflexivity.
  - reflexivity.
  - reflexivity.
  - reflexivity.
  - reflexivity.
  - reflexivity.
  - apply reverse_Permutation.
  - reflexivity.
Defined.

(** ** Instances of the further properties *)

Lemma failed_detection_or_decoding_leaves_no_trace_witness :
  let env := env entries imwrite_ok no_fault in
  let args := args true true true in
  ∃ st' e,
    process_guarded env args model results c_JPG stale = (st', inr tt)
    ∧ e = AttributeError
    ∧ stdout st' = [MsgProcessing "c.JPG"; MsgError "c.JPG" e]
    ∧ ledger st' = ledger stale
    ∧ files st' = files stale
    ∧ total_detections st' = total_detections stale
    ∧ processed_images st' = processed_images stale.
Proof.
  intros env args.
  apply (failed_detection_or_decoding_leaves_no_trace env args model results
           c_JPG stale).
  right. reflexivity.
Defined.



Lemma annotated_image_of_processed_image_witness :
  let env := env entries imwrite_ok no_fault in
  let args := args true true true in
  let st' := (process_image env args model results a_jpg stale).1 in
  let file := results // "annotated" // "a_annotated.jpg" in
  ∃ marks,
    Forall2 (λ box mark,
        let '(x1, y1, x2, y2) := box_xyxy box in
        ∃ cls class_name,
          int_of_float (box_cls box) = Some cls
          ∧ (if bool_decide (names model = ∅) then class_name = pretty cls
             else names model !! cls = Some class_name)
          ∧ mark = (tensor_int x1, tensor_int y1, tensor_int x2, tensor_int y2,
                    class_name +:+ ": " +:+ format_f 2 (box_conf box)))
      [box1; box2] marks
    ∧ (imwrite env file (Annotated image marks) = inr true →
       files st' !! file = Some (Annotated image marks)).
Proof.
  intros env args st' file.
  apply (annotated_image_of_processed_image env args model results a_jpg
           [box1; box2] image stale st'); try reflexivity.
  discriminate.
Defined.

Lemma unnamed_class_fails_the_image_witness :
  let env := env entries imwrite_ok no_fault in
  let args := args true true true in
  let ants : Model := {| predict := predict model; names := {[ 0 := "ant" ]} |} in
  image_fails env args ants results a_jpg.
Proof.
  intros env args ants.
  apply (unnamed_class_fails_the_image env args ants results a_jpg
           [box1; box2] image 1 box2 1); try reflexivity.
  intros Hempty. apply (f_equal (λ m : gmap Z string, m !! 0)) in Hempty.
  discriminate Hempty.
Defined.

Lemma every_ledger_row_has_four_cells_witness :
  let env := env entries imwrite_crop_error no_fault in
  let args := args true true true in
  ∃ st' summary,
    run_yolo_inference env args stale = (st', inr summary)
    ∧ Forall (λ row : Row, length row = 4%nat) (ledger st').
Proof.
  intros env args.
  apply (every_ledger_row_has_four_cells env args model entries stale).
  - repeat split; reflexivity.
  - split; reflexivity.
  - discriminate.
Defined.

Lemma processed_images_at_most_total_witness :
  let env := env entries imwrite_ok no_fault in
  let args := args true true true in
  ∃ st' summary processed,
    run_yolo_inference env args stale = (st', inr summary)
    ∧ summary !! "total_images" = Some (PyInt 3)
    ∧ summary !! "processed_images" = Some (PyInt (Z.of_nat processed))
    ∧ (processed ≤ 3)%nat
    ∧ (processed = 3%nat
       ↔ ∀ p, p ∈ [a_jpg; b_png; c_JPG] →
              image_succeeds env args model results p).
Proof.
  intros env args.
  apply (processed_images_at_most_total env args model entries stale).
  - repeat split; reflexivity.
  - split; reflexivity.
  - discriminate.
Defined.

Lemma run_never_deletes_a_file_witness :
  let env := env entries imwrite_ok no_fault in
  let q := results // "labels" // "b.txt" in
  is_Some (files (run_yolo_inference env (args true true true) stale).1 !! q).
Proof.
  intros env q.
  apply (run_never_deletes_a_file env (args true true true) stale q).
  eexists. reflexivity.
Defined.

Lemma setup_error_escapes_witness :
  let env :=
    {| YOLO := YOLO (env entries imwrite_ok no_fault);
       iterdir _ := inl (OSError "not a directory");
       imread := imread (env entries imwrite_ok no_fault);
       imwrite := imwrite_ok; io_error := no_fault |} in
  let args := args true true true in
  ∃ st',
    run_yolo_inference env args stale = (st', inl (OSError "not a directory"))
    ∧ stdout st' = [MsgLoading "best.pt"]
    ∧ ledger st' = ledger stale
    ∧ files st' = files stale.
Proof.
  intros env args.
  apply (setup_error_escapes env args stale (OSError "not a directory")).
  reflexivity.
Defined.

Lemma enumerated_name_is_stem_and_extension_witness :
  ∃ stem ext,
    path_name c_JPG = stem +:+ ext
    ∧ stem ≠ ""
    ∧ lower ext ∈ [".jpg"; ".jpeg"; ".png"; ".bmp"; ".tiff"; ".tif"]
    ∧ path_stem c_JPG = stem
    ∧ path_suffix c_JPG = ext.
Proof.
  apply (enumerated_name_is_stem_and_extension photos entries c_JPG).
  apply (bool_decide_unpack _). by vm_compute.
Defined.

Lemma label_lines_match_ledger_rows_witness :
  let env := env entries imwrite_ok no_fault in
  let args := args true true true in
  let st' := (process_image env args model results a_jpg stale).1 in
  ∃ lines rows,
    files st' !! (results // "labels" // "a.txt") = Some (Text lines)
    ∧ ledger st' = ledger stale ++ rows
    ∧ length lines = 2%nat
    ∧ length rows = 2%nat.
Proof.
  intros env args st'.
  apply (label_lines_match_ledger_rows env args model results a_jpg
           [box1; box2] stale st'); try reflexivity.
  discriminate.
Defined.
